(** * Verification of the ESLint patch scripts

    The repository consists of three revisions of one maintenance script
    (fix_eslint.py, fix_all_eslint.py, fix_final_eslint.py).  Each revision
    defines the same helper [fix_file], calls it on a fixed table of
    (path, fixes) entries, optionally writes or removes linter configuration
    files, and finally runs [npm run lint] and prints what it captured.

    The development is organised as follows:
    - [PyRe]: an executable model of the standard-library call
      [re.sub(pattern, repl, text, flags=re.MULTILINE | re.DOTALL)], a
      backtracking matcher after CPython's sre for the syntax the patch
      tables are written in (literals, escapes, sets, anchors, groups,
      alternation, greedy and lazy repeats); backreferences, lookaround,
      named groups, possessive repeats and numeric escapes in patterns are
      outside it and rejected as errors;
    - [Os]: the file system, the console and the event trace, with a state
      and exception monad for the scripts;
    - section [Scripts]: [fix_file], the patch tables and the three scripts,
      over a platform, a regular-expression engine and a linter process;
    - the theorems: those about [fix_file] alone hold for every engine,
      those that speak of matches are about [PyRe].

    Text is modelled as [string] (8-bit characters).  This coincides with
    Python's [str] on ASCII text, which is what the tables and the
    configuration files consist of. *)

From Stdlib Require Import String Ascii List Arith Bool Lia.
From stdpp Require Import gmap strings list fin_maps.

(** ** Exceptions and results *)

(** The Python exceptions the modelled code can raise. *)
Inductive exn :=
| ReError (msg : string)          (* re.error *)
| IsADirectoryError (path : string)
| FileNotFoundError (path : string).

Inductive result (A : Type) :=
| Ok (a : A)
| Raise (e : exn).
Arguments Ok {A} a.
Arguments Raise {A} e.

(** [result] is a monad; stdpp's [x ← c; k] notation binds in it. *)
Global Instance result_ret : MRet result := fun A a => Ok a.
Global Instance result_bind : MBind result := fun A B f x =>
  match x with
  | Ok a => f a
  | Raise e => Raise e
  end.

(** ** Python's [re.sub] with [re.MULTILINE | re.DOTALL] *)

Module PyRe.

(** *** Abstract syntax *)

Inductive category := CatDigit | CatSpace | CatWord.

(** One member of a bracketed character set. *)
Inductive citem :=
| CChar (c : ascii)
| CRange (lo hi : ascii)
| CCat (neg : bool) (k : category).

Inductive regex :=
| Eps
| Chr (c : ascii)
| Any                                   (* [.] under DOTALL *)
| CSet (neg : bool) (items : list citem)
| Bol                                   (* [^] under MULTILINE *)
| Eol                                   (* [$] under MULTILINE *)
| Bos                                   (* \A *)
| Eos                                   (* \Z *)
| WordB (neg : bool)                    (* \b, and \B when [neg] *)
| Seq (r1 r2 : regex)
| Alt (r1 r2 : regex)
| Group (i : nat) (r : regex)
| Repeat (lo : nat) (hi : option nat) (greedy : bool) (r : regex).

(** *** Character tests *)

Definition between (lo hi n : nat) : bool := (lo <=? n) && (n <=? hi).

Definition in_category (k : category) (c : ascii) : bool :=
  let n := nat_of_ascii c in
  match k with
  | CatDigit => between 48 57 n
  | CatSpace => between 9 13 n || between 28 32 n
  | CatWord => between 48 57 n || between 65 90 n || between 97 122 n || (n =? 95)
  end.

Definition in_citem (i : citem) (c : ascii) : bool :=
  match i with
  | CChar x => Ascii.eqb x c
  | CRange lo hi => between (nat_of_ascii lo) (nat_of_ascii hi) (nat_of_ascii c)
  | CCat neg k => xorb neg (in_category k c)
  end.

Definition in_cset (neg : bool) (items : list citem) (c : ascii) : bool :=
  xorb neg (existsb (fun i => in_citem i c) items).

Definition newline : ascii := "010"%char.

(** *** The backtracking matcher *)

(** A position in the subject: the characters already passed (most recent
    first) and the characters still ahead. *)
Record cursor := Cursor { before : list ascii; after : list ascii }.

(** Captured groups, most recent binding first. *)
Definition caps := list (nat * list ascii).

Fixpoint get_cap (i : nat) (cs : caps) : option (list ascii) :=
  match cs with
  | [] => None
  | (j, v) :: cs' => if i =? j then Some v else get_cap i cs'
  end.

(** The text between two cursors of the same subject, [c1] not after [c2]. *)
Definition span (c1 c2 : cursor) : list ascii :=
  take (length (after c1) - length (after c2)) (after c1).

Definition at_bol (cur : cursor) : bool :=
  match before cur with
  | [] => true
  | c :: _ => Ascii.eqb c newline
  end.

Definition at_eol (cur : cursor) : bool :=
  match after cur with
  | [] => true
  | c :: _ => Ascii.eqb c newline
  end.

Definition is_word (c : option ascii) : bool :=
  match c with
  | Some x => in_category CatWord x
  | None => false
  end.

(** A word character on exactly one side of the position. *)
Definition at_boundary (cur : cursor) : bool :=
  xorb (is_word (head (before cur))) (is_word (head (after cur))).

Definition is_nil {A} (l : list A) : bool :=
  match l with [] => true | _ => false end.

Definition kont := cursor -> caps -> option (cursor * caps).

(** Consume one character satisfying [p]. *)
Definition one (p : ascii -> bool) (k : kont) (cur : cursor) (cs : caps)
  : option (cursor * caps) :=
  match after cur with
  | c :: rest => if p c then k (Cursor (c :: before cur) rest) cs else None
  | [] => None
  end.

Definition orelse {A} (x : option A) (y : unit -> option A) : option A :=
  match x with
  | Some a => Some a
  | None => y tt
  end.

(** One repeat, following sre's MAX_UNTIL / MIN_UNTIL: the first [lo]
    iterations of [body] are mandatory; a further iteration is attempted only
    while the count is below [hi] and the position differs from the one the
    previous optional iteration started at ([last], as the number of
    characters ahead).  Every optional iteration but the first consumes a
    character, so [lo + length (after cur) + 2] is enough fuel
    ([PyReFacts.repeat_fuel]). *)
Fixpoint rep_loop (body : kont -> kont) (lo : nat) (hi : option nat)
    (greedy : bool) (k : kont) (fuel count : nat) (last : option nat)
    (cur : cursor) (cs : caps) {struct fuel} : option (cursor * caps) :=
  match fuel with
  | 0 => None
  | S fuel' =>
      let here := length (after cur) in
      if count <? lo then
        body (rep_loop body lo hi greedy k fuel' (S count) last) cur cs
      else
        let more := match hi with Some h => count <? h | None => true end in
        let moved := match last with Some n => negb (n =? here) | None => true end in
        let again (_ : unit) :=
          if more && moved
          then body (rep_loop body lo hi greedy k fuel' (S count) (Some here)) cur cs
          else None in
        if greedy
        then orelse (again tt) (fun _ => k cur cs)
        else orelse (k cur cs) again
  end.

(** [m r k cur cs] matches [r] at [cur] and hands the position reached to
    the continuation [k]; alternatives are tried in priority order. *)
Fixpoint m (r : regex) (k : kont) (cur : cursor) (cs : caps)
  : option (cursor * caps) :=
  match r with
  | Eps => k cur cs
  | Chr c => one (Ascii.eqb c) k cur cs
  | Any => one (fun _ => true) k cur cs
  | CSet neg items => one (in_cset neg items) k cur cs
  | Bol => if at_bol cur then k cur cs else None
  | Eol => if at_eol cur then k cur cs else None
  | Bos => if is_nil (before cur) then k cur cs else None
  | Eos => if is_nil (after cur) then k cur cs else None
  | WordB neg => if xorb neg (at_boundary cur) then k cur cs else None
  | Seq r1 r2 => m r1 (m r2 k) cur cs
  | Alt r1 r2 => orelse (m r1 k cur cs) (fun _ => m r2 k cur cs)
  | Group i r1 =>
      m r1 (fun cur' cs' => k cur' ((i, span cur cur') :: cs')) cur cs
  | Repeat lo hi greedy r1 =>
      rep_loop (m r1) lo hi greedy k (lo + length (after cur) + 2) 0 None cur cs
  end.

(** The outermost continuation: [must_advance] refuses an empty match at
    the position the search started from. *)
Definition accept (must_advance : bool) (start : cursor) : kont :=
  fun cur cs =>
    if must_advance && (length (after cur) =? length (after start))
    then None else Some (cur, cs).

(** Leftmost match at or after the cursor: start, end and captures.
    [must_advance] only applies at the first position tried. *)
Fixpoint search_from (r : regex) (must_advance : bool)
    (bef aft : list ascii) : option (cursor * cursor * caps) :=
  let start := Cursor bef aft in
  match m r (accept must_advance start) start [] with
  | Some (stop, cs) => Some (start, stop, cs)
  | None =>
      match aft with
      | [] => None
      | c :: aft' => search_from r false (c :: bef) aft'
      end
  end.

(** *** Parsing patterns *)

Definition err {A} (msg : string) : result A := Raise (ReError msg).

Definition is_digit (c : ascii) : bool := between 48 57 (nat_of_ascii c).
Definition is_octal (c : ascii) : bool := between 48 55 (nat_of_ascii c).
Definition is_letter (c : ascii) : bool :=
  between 65 90 (nat_of_ascii c) || between 97 122 (nat_of_ascii c).
Definition digit_val (c : ascii) : nat := nat_of_ascii c - 48.

(** The longest prefix of decimal digits, and what follows it. *)
Fixpoint read_digits (s : list ascii) : list ascii * list ascii :=
  match s with
  | c :: s' =>
      if is_digit c
      then let '(ds, rest) := read_digits s' in (c :: ds, rest)
      else ([], s)
  | [] => ([], [])
  end.

Definition to_nat (base : nat) (ds : list ascii) : nat :=
  fold_left (fun n c => base * n + digit_val c) ds 0.

(** Escapes that denote one character: \a \f \n \r \t \v and the
    backslash itself. *)
Definition escape_char (c : ascii) : option ascii :=
  match c with
  | "a"%char => Some "007"%char
  | "f"%char => Some "012"%char
  | "n"%char => Some "010"%char
  | "r"%char => Some "013"%char
  | "t"%char => Some "009"%char
  | "v"%char => Some "011"%char
  | "\"%char => Some "\"%char
  | _ => None
  end.

Definition escape_category (c : ascii) : option (bool * category) :=
  match c with
  | "d"%char => Some (false, CatDigit)
  | "D"%char => Some (true, CatDigit)
  | "s"%char => Some (false, CatSpace)
  | "S"%char => Some (true, CatSpace)
  | "w"%char => Some (false, CatWord)
  | "W"%char => Some (true, CatWord)
  | _ => None
  end.

Definition escape_anchor (c : ascii) : option regex :=
  match c with
  | "A"%char => Some Bos
  | "Z"%char => Some Eos
  | "b"%char => Some (WordB false)
  | "B"%char => Some (WordB true)
  | _ => None
  end.

(** An escape outside a character set (the character after the
    backslash).  Numeric and named escapes and backreferences are outside
    the modelled syntax and are rejected. *)
Definition parse_escape (c : ascii) : result regex :=
  match escape_category c, escape_anchor c with
  | Some (neg, k), _ => Ok (CSet false [CCat neg k])
  | None, Some a => Ok a
  | None, None =>
      match escape_char c with
      | Some x => Ok (Chr x)
      | None =>
          if is_letter c || is_digit c
          then err "bad escape"
          else Ok (Chr c)
      end
  end.

(** An escape inside a character set; there \b is the backspace. *)
Definition parse_set_escape (c : ascii) : result citem :=
  match escape_char c with
  | Some x => Ok (CChar x)
  | None =>
      if Ascii.eqb c "b"%char then Ok (CChar "008"%char)
      else
        match escape_category c with
        | Some (neg, k) => Ok (CCat neg k)
        | None =>
            if is_letter c || is_digit c
            then err "bad escape"
            else Ok (CChar c)
        end
  end.

(** One member of a set: a character or an escape. *)
Definition set_atom (s : list ascii) : result (citem * list ascii) :=
  match s with
  | [] => err "unterminated character set"
  | "\"%char :: [] => err "bad escape (end of pattern)"
  | "\"%char :: c :: s' => i ← parse_set_escape c; Ok (i, s')
  | c :: s' => Ok (CChar c, s')
  end.

(** The members of a set up to the closing bracket; [acc] holds the members
    read so far, most recent first.  A closing bracket that comes first is
    a member. *)
Fixpoint parse_set_items (fuel : nat) (s : list ascii) (acc : list citem)
  : result (list citem * list ascii) :=
  match fuel with
  | 0 => err "unterminated character set"
  | S fuel' =>
      match s, acc with
      | [], _ => err "unterminated character set"
      | "]"%char :: s', _ :: _ => Ok (rev acc, s')
      | _, _ =>
          '(i1, s1) ← set_atom s;
          match s1 with
          | "-"%char :: [] => err "unterminated character set"
          | "-"%char :: "]"%char :: s2 => Ok (rev (CChar "-"%char :: i1 :: acc), s2)
          | "-"%char :: s2 =>
              '(i2, s3) ← set_atom s2;
              match i1, i2 with
              | CChar lo, CChar hi =>
                  if nat_of_ascii hi <? nat_of_ascii lo
                  then err "bad character range"
                  else parse_set_items fuel' s3 (CRange lo hi :: acc)
              | _, _ => err "bad character range"
              end
          | _ => parse_set_items fuel' s1 (i1 :: acc)
          end
      end
  end.

(** A set, after its opening bracket. *)
Definition parse_set (s : list ascii) : result (regex * list ascii) :=
  let '(neg, s0) :=
    match s with
    | "^"%char :: s' => (true, s')
    | _ => (false, s)
    end in
  '(items, s1) ← parse_set_items (length s0) s0 [];
  Ok (CSet neg items, s1).

(** The bounds of a braced repeat, after the opening brace; [None] when the
    text is not a repeat (the brace is then an ordinary character). *)
Definition parse_braces (s : list ascii)
  : option (nat * option nat * list ascii) :=
  match s with
  | "}"%char :: _ => None
  | _ =>
      let '(lo, s1) := read_digits s in
      let '(hi, s2) :=
        match s1 with
        | ","%char :: s1' => read_digits s1'
        | _ => (lo, s1)
        end in
      match s2 with
      | "}"%char :: s3 =>
          Some (match lo with [] => 0 | _ => to_nat 10 lo end,
                match hi with [] => None | _ => Some (to_nat 10 hi) end,
                s3)
      | _ => None
      end
  end.

Definition is_anchor (r : regex) : bool :=
  match r with Bol | Eol | Bos | Eos | WordB _ => true | _ => false end.

(** The repeat operator the text starts with, if any. *)
Definition parse_bounds (s : list ascii)
  : option (nat * option nat * list ascii) :=
  match s with
  | "*"%char :: s' => Some (0, None, s')
  | "+"%char :: s' => Some (1, None, s')
  | "?"%char :: s' => Some (0, Some 1, s')
  | "{"%char :: s' => parse_braces s'
  | _ => None
  end.

Definition starts_repeat (s : list ascii) : bool :=
  match parse_bounds s with Some _ => true | None => false end.

(** An anchor cannot be repeated. *)
Definition anchor (r : regex) (s : list ascii) (g : nat)
  : result (regex * list ascii * nat) :=
  if is_anchor r && starts_repeat s then err "nothing to repeat"
  else Ok (r, s, g).

(** The repeat operator that may follow an item. *)
Definition parse_quant (item : regex) (s : list ascii)
  : result (regex * list ascii) :=
  match parse_bounds s with
  | None => Ok (item, s)
  | Some (lo, hi, s1) =>
      if match hi with Some h => h <? lo | None => false end
      then err "min repeat greater than max repeat"
      else
        let '(greedy, s2) :=
          match s1 with
          | "?"%char :: s' => (false, s')
          | _ => (true, s1)
          end in
        if greedy && match s1 with "+"%char :: _ => true | _ => false end
        then err "possessive repeat"
        else if starts_repeat s2 then err "multiple repeat"
        else Ok (Repeat lo hi greedy item, s2)
  end.

(** The recursive-descent parser.  [g] is the number of the next capturing
    group; each function returns the expression, the unread text and the
    next group number.  Every call consumes some of the text or is followed
    by one that does, so fuel proportional to the length suffices. *)
Fixpoint parse_alt (fuel : nat) (s : list ascii) (g : nat)
  : result (regex * list ascii * nat) :=
  match fuel with
  | 0 => err "pattern too long"
  | S fuel' =>
      '(r1, s1, g1) ← parse_seq fuel' s g;
      match s1 with
      | "|"%char :: s2 =>
          '(r2, s3, g2) ← parse_alt fuel' s2 g1;
          Ok (Alt r1 r2, s3, g2)
      | _ => Ok (r1, s1, g1)
      end
  end
with parse_seq (fuel : nat) (s : list ascii) (g : nat)
  : result (regex * list ascii * nat) :=
  match fuel with
  | 0 => err "pattern too long"
  | S fuel' =>
      match s with
      | [] => Ok (Eps, s, g)
      | "|"%char :: _ => Ok (Eps, s, g)
      | ")"%char :: _ => Ok (Eps, s, g)
      | _ =>
          if starts_repeat s then err "nothing to repeat"
          else
            '(item, s1, g1) ← parse_atom fuel' s g;
            '(q, s2) ← parse_quant item s1;
            '(rest, s3, g2) ← parse_seq fuel' s2 g1;
            Ok (Seq q rest, s3, g2)
      end
  end
with parse_atom (fuel : nat) (s : list ascii) (g : nat)
  : result (regex * list ascii * nat) :=
  match fuel with
  | 0 => err "pattern too long"
  | S fuel' =>
      match s with
      | [] => err "unexpected end of pattern"
      | "("%char :: "?"%char :: ":"%char :: s1 =>
          '(r, s2, g1) ← parse_alt fuel' s1 g;
          match s2 with
          | ")"%char :: s3 => Ok (r, s3, g1)
          | _ => err "missing ), unterminated subpattern"
          end
      | "("%char :: "?"%char :: _ => err "unsupported group extension"
      | "("%char :: s1 =>
          '(r, s2, g1) ← parse_alt fuel' s1 (S g);
          match s2 with
          | ")"%char :: s3 => Ok (Group g r, s3, g1)
          | _ => err "missing ), unterminated subpattern"
          end
      | "["%char :: s1 => '(r, s2) ← parse_set s1; Ok (r, s2, g)
      | "\"%char :: [] => err "bad escape (end of pattern)"
      | "\"%char :: c :: s1 => r ← parse_escape c; anchor r s1 g
      | "."%char :: s1 => Ok (Any, s1, g)
      | "^"%char :: s1 => anchor Bol s1 g
      | "$"%char :: s1 => anchor Eol s1 g
      | c :: s1 => Ok (Chr c, s1, g)
      end
  end.

(** [re.compile]: the expression and its number of capturing groups. *)
Definition compile (pattern : string) : result (regex * nat) :=
  let s := list_ascii_of_string pattern in
  '(r, rest, g) ← parse_alt (3 * length s + 3) s 1;
  match rest with
  | [] => Ok (r, g - 1)
  | _ => err "unbalanced parenthesis"
  end.

(** *** Replacement templates *)

Inductive titem :=
| TLit (c : ascii)
| TGroup (i : nat).

Definition group_ref (groups i : nat) : result titem :=
  if groups <? i then err "invalid group reference" else Ok (TGroup i).

(** The template parser of [re.sub]: \1 ... \99 and \g<n> refer to groups,
    \0 and three octal digits denote a character, the escapes of
    [escape_char] and \b denote control characters, a backslash before
    another letter is an error and before anything else it is kept. *)
Fixpoint parse_template (fuel : nat) (groups : nat) (s : list ascii)
  : result (list titem) :=
  match fuel with
  | 0 => match s with [] => Ok [] | _ => err "template too long" end
  | S fuel' =>
      match s with
      | [] => Ok []
      | "\"%char :: [] => err "bad escape (end of pattern)"
      | "\"%char :: "g"%char :: "<"%char :: s1 =>
          match read_digits s1 with
          | (d :: ds, ">"%char :: s2) =>
              t ← group_ref groups (to_nat 10 (d :: ds));
              ts ← parse_template fuel' groups s2;
              Ok (t :: ts)
          | _ => err "bad group reference"
          end
      | "\"%char :: "g"%char :: _ => err "missing <"
      | "\"%char :: "0"%char :: s1 =>
          let '(ds, s2) :=
            match s1 with
            | d1 :: d2 :: s' =>
                if is_octal d1 && is_octal d2 then ([d1; d2], s')
                else if is_octal d1 then ([d1], d2 :: s')
                else ([], s1)
            | d1 :: s' => if is_octal d1 then ([d1], s') else ([], s1)
            | [] => ([], s1)
            end in
          ts ← parse_template fuel' groups s2;
          Ok (TLit (ascii_of_nat (to_nat 8 ds)) :: ts)
      | "\"%char :: c :: s1 =>
          if is_digit c then
            match s1 with
            | d2 :: s2 =>
                if is_digit d2 then
                  match s2 with
                  | d3 :: s3 =>
                      if is_octal c && is_octal d2 && is_octal d3 then
                        if 255 <? to_nat 8 [c; d2; d3]
                        then err "octal escape value outside of range 0-0o377"
                        else
                          ts ← parse_template fuel' groups s3;
                          Ok (TLit (ascii_of_nat (to_nat 8 [c; d2; d3])) :: ts)
                      else
                        t ← group_ref groups (to_nat 10 [c; d2]);
                        ts ← parse_template fuel' groups s2;
                        Ok (t :: ts)
                  | [] =>
                      t ← group_ref groups (to_nat 10 [c; d2]);
                      Ok [t]
                  end
                else
                  t ← group_ref groups (digit_val c);
                  ts ← parse_template fuel' groups s1;
                  Ok (t :: ts)
            | [] => t ← group_ref groups (digit_val c); Ok [t]
            end
          else
            match (if Ascii.eqb c "b"%char then Some "008"%char else escape_char c) with
            | Some x => ts ← parse_template fuel' groups s1; Ok (TLit x :: ts)
            | None =>
                if is_letter c then err "bad escape"
                else
                  ts ← parse_template fuel' groups s1;
                  Ok (TLit "\"%char :: TLit c :: ts)
            end
      | c :: s1 => ts ← parse_template fuel' groups s1; Ok (TLit c :: ts)
      end
  end.

(** The replacement text for one match: [whole] is group 0; a group that
    took no part in the match contributes nothing. *)
Definition expand (tpl : list titem) (whole : list ascii) (cs : caps)
  : list ascii :=
  flat_map (fun t =>
    match t with
    | TLit c => [c]
    | TGroup 0 => whole
    | TGroup i => match get_cap i cs with Some v => v | None => [] end
    end) tpl.

(** *** Substitution *)

(** The loop of [re.sub]: find the leftmost match at or after the current
    position, copy the text before it, append the replacement, and go on
    from the end of the match; after an empty match the next one must
    advance.  Two rounds per position at most, hence the fuel in [sub]
    ([PyReFacts.sub_fuel]). *)
Fixpoint sub_loop (fuel : nat) (r : regex) (tpl : list titem)
    (must_advance : bool) (bef aft : list ascii) : list ascii :=
  match fuel with
  | 0 => aft
  | S fuel' =>
      match search_from r must_advance bef aft with
      | None => aft
      | Some (start, stop, cs) =>
          span (Cursor bef aft) start
          ++ expand tpl (span start stop) cs
          ++ sub_loop fuel' r tpl
               (length (after stop) =? length (after start))
               (before stop) (after stop)
      end
  end.



(** [re.sub(pattern, repl, text, flags=re.MULTILINE | re.DOTALL)]. *)
Definition sub (pattern repl text : string) : result string :=
  '(r, groups) ← compile pattern;
  tpl ← parse_template (length (list_ascii_of_string repl)) groups
          (list_ascii_of_string repl);
  let s := list_ascii_of_string text in
  Ok (string_of_list_ascii (sub_loop (2 * length s + 3) r tpl false [] s)).

(** *** Notions used to reason about the matcher *)

(** Characters still ahead. *)
Definition ahead (cur : cursor) : nat := length (after cur).

(** Two continuations that agree from a position on. *)
Definition agree (n : nat) (k1 k2 : kont) : Prop :=
  forall cur cs, ahead cur <= n -> k1 cur cs = k2 cur cs.

(** A matcher that only looks at its continuation at or after the
    position it starts from. *)
Definition local (body : kont -> kont) : Prop :=
  forall k1 k2 cur cs, agree (ahead cur) k1 k2 -> body k1 cur cs = body k2 cur cs.

(** A matcher that succeeds only through its continuation, at or after
    the position it starts from. *)
Definition forward (body : kont -> kont) : Prop :=
  forall k cur cs res,
    body k cur cs = Some res ->
    exists cur' cs', ahead cur' <= ahead cur /\ k cur' cs' = Some res.

(** The fuel one call of the repeat needs. *)
Definition rep_need (lo count : nat) (last : option nat) (cur : cursor) : nat :=
  (lo - count) + ahead cur
  + match last with
    | Some n => if n =? ahead cur then 1 else 2
    | None => 2
    end.

End PyRe.

(** ** The operating-system interface *)

Module Os.

Definition lf : ascii := "010"%char.
Definition cr : ascii := "013"%char.
Definition nl : string := String lf EmptyString.

Inductive platform := Posix | Windows.

(** [os.linesep] *)
Definition linesep (os : platform) : string :=
  match os with
  | Posix => nl
  | Windows => String cr nl
  end.

(** What a text-mode read does to line endings: \r\n and \r become \n. *)
Fixpoint universal_newlines (s : string) : string :=
  match s with
  | EmptyString => EmptyString
  | String c rest =>
      if Ascii.eqb c cr then
        String lf
          match rest with
          | String d rest' =>
              if Ascii.eqb d lf then universal_newlines rest'
              else universal_newlines rest
          | EmptyString => EmptyString
          end
      else String c (universal_newlines rest)
  end.

(** What a text-mode write does to line endings: \n becomes [os.linesep]. *)
Fixpoint translate_newlines (os : platform) (s : string) : string :=
  match s with
  | EmptyString => EmptyString
  | String c rest =>
      if Ascii.eqb c lf then linesep os +:+ translate_newlines os rest
      else String c (translate_newlines os rest)
  end.

(** The text has no carriage return. *)
Fixpoint no_cr (s : string) : bool :=
  match s with
  | EmptyString => true
  | String c rest => negb (Ascii.eqb c cr) && no_cr rest
  end.

(** A path names a regular file with its bytes, or a directory.  The
    name space is flat: parent directories are not modelled. *)
Inductive node :=
| File (data : string)
| Dir.

(** What a run does to the outside world, in order. *)
Inductive event :=
| EvRead (path : string)                  (* open(path, 'r') ... read() *)
| EvWrite (path : string) (data : string) (* open(path, 'w') ... write(); the bytes stored *)
| EvRemove (path : string)                (* os.remove(path) *)
| EvPrint (text : string)                 (* print(text) *)
| EvRun (argv : list string) (out err : string). (* subprocess.run(argv, ...) returned *)

(** [subprocess.CompletedProcess], as far as the scripts use it. *)
Record completed_process := Completed { stdout : string; stderr : string }.

(** A computation reads and updates the file system, appends to the event
    trace, and returns or raises; the effects made before an exception
    stay. *)
Definition M (A : Type) : Type :=
  gmap string node -> result A * gmap string node * list event.

Global Instance M_ret : MRet M := fun A a fs => (Ok a, fs, []).
Global Instance M_bind : MBind M := fun A B f x fs =>
  match x fs with
  | (Ok a, fs1, evs1) =>
      match f a fs1 with
      | (r, fs2, evs2) => (r, fs2, evs1 ++ evs2)
      end
  | (Raise e, fs1, evs1) => (Raise e, fs1, evs1)
  end.

(** A pure computation that may raise. *)
Definition lift {A} (x : result A) : M A := fun fs => (x, fs, []).

(** [print(text)] *)
Definition print (text : string) : M unit :=
  fun fs => (Ok tt, fs, [EvPrint text]).

(** [os.path.exists(path)] *)
Definition path_exists (path : string) : M bool :=
  fun fs => (Ok (bool_decide (is_Some (fs !! path))), fs, []).

(** [with open(path, 'r') as f: f.read()] *)
Definition read_text (path : string) : M string :=
  fun fs =>
    match fs !! path with
    | Some (File data) => (Ok (universal_newlines data), fs, [EvRead path])
    | Some Dir => (Raise (IsADirectoryError path), fs, [])
    | None => (Raise (FileNotFoundError path), fs, [])
    end.

(** [with open(path, 'w') as f: f.write(text)]: the file is created or
    replaced as a whole. *)
Definition write_text (os : platform) (path text : string) : M unit :=
  fun fs =>
    match fs !! path with
    | Some Dir => (Raise (IsADirectoryError path), fs, [])
    | _ =>
        let data := translate_newlines os text in
        (Ok tt, <[path := File data]> fs, [EvWrite path data])
    end.

(** [os.remove(path)] *)
Definition remove (path : string) : M unit :=
  fun fs =>
    match fs !! path with
    | Some (File _) => (Ok tt, delete path fs, [EvRemove path])
    | Some Dir => (Raise (IsADirectoryError path), fs, [])
    | None => (Raise (FileNotFoundError path), fs, [])
    end.

(** [subprocess.run(argv, capture_output=True, text=True)]: [run_process]
    is the program started; it runs to its end on the file system as it is
    at the call, and its output is captured in the value returned. *)
Definition subprocess_run
    (run_process : list string -> gmap string node ->
                   result completed_process * gmap string node)
    (argv : list string) : M completed_process :=
  fun fs =>
    match run_process argv fs with
    | (Ok p, fs1) => (Ok p, fs1, [EvRun argv (stdout p) (stderr p)])
    | (Raise e, fs1) => (Raise e, fs1, [])
    end.

End Os.

(** ** The scripts *)

Import Os.

Section Scripts.

(** The platform, the regular-expression engine behind
    [re.sub(pattern, repl, text, flags=re.MULTILINE | re.DOTALL)], and the
    program that [npm run lint] starts. *)
Variable os : platform.
Variable re_sub : string -> string -> string -> result string.
Variable run_process :
  list string -> gmap string node -> result completed_process * gmap string node.

(** The loop of [fix_file]: every substitution in order, each on the
    result of the one before. *)
Fixpoint apply_fixes (fixes : list (string * string)) (content : string)
  : result string :=
  match fixes with
  | [] => Ok content
  | (pattern, replacement) :: fixes' =>
      content' ← re_sub pattern replacement content;
      apply_fixes fixes' content'
  end.

(** The specification's reading of that loop: the left-to-right fold of
    substitution over the pairs, starting from the original content. *)
Definition fold_fixes (fixes : list (string * string)) (original : string)
  : result string :=
  fold_left (fun acc fx => content ← acc; re_sub fx.1 fx.2 content)
    fixes (Ok original).

(** [fix_file(filepath, fixes)]; the three scripts define it alike. *)
Definition fix_file (filepath : string) (fixes : list (string * string))
  : M unit :=
  found ← path_exists filepath;
  if negb found then print ("File not found: " +:+ filepath)
  else
    content ← read_text filepath;
    let original := content in
    content ← lift (apply_fixes fixes content);
    if negb (String.eqb content original) then
      write_text os filepath content;;
      print ("Fixed: " +:+ filepath)
    else mret tt.

(** The tail of every script: run the linter and print what it wrote. *)
Definition run_lint : M unit :=
  print (nl +:+ "Running ESLint to check remaining issues...");;
  result ← subprocess_run run_process ["npm"; "run"; "lint"];
  print (stdout result);;
  print (stderr result).

(** *** fix_eslint.py *)

Definition fix_eslint : M unit :=
  fix_file "src/app/(dashboard)/assistant/page.tsx"
    [ ("import { format } from \'date-fns\'\n", "");
      (": any\[\]", ": unknown[]");
      ("catch \(e: any\)", "catch (e: unknown)");
      ("onChange: \(messages: any\[\]\)",
       "onChange: (messages: Message[])");
      ("setMessages\(prev => \(prev as any\)",
       "setMessages(prev => (prev as Message[])");
      ("const \[threadId, messageId\] = e\.detail as any;",
       "const [_threadId, _messageId] = e.detail as [string, string];") ];;
  fix_file "src/app/api/reports/schedule/route.tsx"
    [ ("const mockScheduledReports: any\[\]",
       "const mockScheduledReports: unknown[]");
      ("} catch \(error\) {", "} catch (_error) {") ];;
  fix_file "src/app/reports/[id]/page.tsx"
    [ ("import { .*, Calendar, Clock,.*",
       "import { ArrowLeft, Download, Mail, Share2, CheckCircle2, XCircle, AlertCircle } from 'lucide-react';");
      ("const \[reportData, setReportData\] = useState<any>",
       "const [reportData, setReportData] = useState<unknown>");
      ("\.map\(\(run: any\)", ".map((run: unknown)") ];;
  fix_file "src/app/runs/[id]/page.tsx"
    [ ("import {[\s\S]*?ResponsiveContainer[\s\S]*?} from \'recharts\'",
       "import {" +:+ nl +:+
       "  LineChart," +:+ nl +:+
       "  Line," +:+ nl +:+
       "  XAxis," +:+ nl +:+
       "  YAxis," +:+ nl +:+
       "  CartesianGrid," +:+ nl +:+
       "  Tooltip," +:+ nl +:+
       "  ResponsiveContainer" +:+ nl +:+
       "} from 'recharts'") ];;
  fix_file "src/components/reports/ReportModal.tsx"
    [ ("const \[reportData, setReportData\] = useState<any>",
       "const [reportData, setReportData] = useState<unknown>") ];;
  fix_file "src/components/reports/ReportPreview.tsx"
    [ ("const \[selectedInstruments, setSelectedInstruments\] = useState<string\[\]>\(\[\]\);[\n\s]*",
       "");
      ("const CustomTooltip = \({ active, payload, label }: any\)",
       "const CustomTooltip = ({ active, payload, label }: { active?: boolean; payload?: Array<{ color: string; name: string; value: number }>; label?: string })");
      ("payload\.map\(\(entry: any, index: number\)",
       "payload.map((entry, index: number)");
      ("label=\{\(props: any\)",
       "label={(props: { percent: number })") ];;
  fix_file "src/components/reports/ReportPlanCard.tsx"
    [ ("import {[\s\S]*?DocumentArrowDownIcon[\s\S]*?} from[^\n]+\n",
       "import { CalendarIcon, ChartBarIcon, BeakerIcon, ClockIcon } from '@heroicons/react/24/outline';" +:+ nl) ];;
  fix_file "src/app/signup/page.tsx"
    [ ("const { data, error }", "const { error }") ];;
  fix_file "src/contexts/supabase-session-context.tsx"
    [ ("import { signIn, signUp, signOut, getCurrentUser, getSession }",
       "import { signIn, signUp, signOut, getSession }");
      ("import { UserRole } from[^\n]+\n", "");
      ("const { session, user }", "const { user }");
      ("const { data, error }", "const { data }");
      ("}, \[\]\)", "}, [supabase.auth])") ];;
  fix_file "src/contexts/chat-context.tsx"
    [ ("assistantMessageId: string \| any",
       "assistantMessageId: string | unknown") ];;
  fix_file "src/lib/security/xss-protection.ts"
    [ ("sanitizeObject\(obj: any\)",
       "sanitizeObject(obj: Record<string, unknown>)") ];;
  fix_file "src/lib/security/auth-manager.ts"
    [ ("function validateProductionConfig[\s\S]*?^}", "") ];;
  fix_file "src/lib/supabase/server.ts"
    [ ("} catch \(error\) {", "} catch (_error) {") ];;
  fix_file "src/app/api/onboarding/profile/route.ts"
    [ ("} catch \(error\) {", "} catch (_error) {");
      ("} catch \(dbError\) {", "} catch (_dbError) {");
      ("const _ =", "const _unused =") ];;
  fix_file "src/app/api/onboarding/role/route.ts"
    [ ("} catch \(dbError\) {", "} catch (_dbError) {") ];;
  fix_file "src/app/api/users/sync/route.ts"
    [ ("export async function POST\(request: NextRequest\)",
       "export async function POST(_request: NextRequest)") ];;
  run_lint.

(** *** fix_all_eslint.py *)

Definition assistant_fixes : list (string * string) :=
  [ ("(const handleSubmit = async \(e: React\.FormEvent\) => {[^}]*?const originalInput = input\.trim\(\)\n)",
     "\1\n    // Type for window with protocol\n    interface WindowWithProtocol extends Window {\n      __pendingProtocol?: { protocolId: string; threadId: string; messageId: string };\n    }\n");
    ("\(window as any\)\.__pendingProtocol",
     "(window as unknown as WindowWithProtocol).__pendingProtocol");
    ("const \{ protocolId, threadId, messageId \} = ",
     "const { protocolId } = ") ].

Definition eslintignore : string :=
"scripts/
test-credential-security.js
".

Definition fix_all_eslint : M unit :=
  fix_file "src/app/(dashboard)/assistant/page.tsx" assistant_fixes;;
  fix_file "src/app/api/reports/schedule/route.ts"
    [ ("const mockScheduledReports: any\[\]",
       "const mockScheduledReports: unknown[]");
      ("} catch \(error\) {", "} catch (_error) {") ];;
  fix_file "src/app/reports/[id]/page.tsx"
    [ ("import \{ ArrowLeft, Download, Mail, Share2, CheckCircle2, XCircle, AlertCircle \}",
       "import {}") ];;
  fix_file "src/app/runs/[id]/page.tsx"
    [ ("import \{[^}]+\} from 'lucide-react'",
       "import { ArrowLeft, Download, Share2, Activity, Clock, Beaker, TrendingUp, AlertCircle, CheckCircle, XCircle, FileText } from 'lucide-react'");
      ("import \{[^}]+\} from 'recharts'",
       "import { LineChart, Line, XAxis, YAxis, CartesianGrid, Tooltip, ResponsiveContainer, PieChart, Pie, Cell, Legend } from 'recharts'") ];;
  fix_file "src/components/reports/ReportPlanCard.tsx"
    [ ("import \{ CalendarIcon, ChartBarIcon, BeakerIcon, ClockIcon \} from '@heroicons/react/24/outline'",
       "import { CalendarIcon, ChartBarIcon, BeakerIcon, ClockIcon, ChartPieIcon, FlagIcon, EnvelopeIcon } from '@heroicons/react/24/outline'");
      ("(import type \{ ReportPlan \} from '@/types/reports'\n)",
       "\1import { Card, CardHeader, CardContent, CardFooter } from '@/components/ui/card'\nimport { Badge } from '@/components/ui/badge'\nimport { Button } from '@/components/ui/button'\n") ];;
  fix_file "src/app/api/integrations/[id]/credentials/route.ts"
    [ ("\(req:", "(_req:");
      (", userId:", ", _userId:");
      (", user:", ", _user:") ];;
  fix_file "src/app/api/onboarding/profile/route.ts"
    [ ("const \{ error \}", "const { error: _error }");
      ("} catch \(dbError\)", "} catch (_dbError)");
      ("} catch \(error\)", "} catch (_error)");
      ("const _ =", "const _unused =") ];;
  fix_file "src/app/api/onboarding/role/route.ts"
    [ ("} catch \(dbError\)", "} catch (_dbError)") ];;
  fix_file "src/app/api/users/sync/route.ts"
    [ ("export async function POST\(request:",
       "export async function POST(_request:") ];;
  fix_file "src/contexts/chat-context.tsx"
    [ ("assistantMessageId: string \| any",
       "assistantMessageId: string | unknown") ];;
  fix_file "src/lib/security/xss-protection.ts"
    [ ("sanitizeObject\(obj: any\)",
       "sanitizeObject(obj: Record<string, unknown>)") ];;
  fix_file "src/lib/supabase/server.ts"
    [ ("} catch \(error\)", "} catch (_error)") ];;
  fix_file "src/app/signup/page.tsx"
    [ ("const \{ data, error \}", "const { error }") ];;
  fix_file "src/contexts/supabase-session-context.tsx"
    [ ("const \{ session, user \}", "const { user }");
      ("const \{ data, error \}", "const { data }") ];;
  write_text os ".eslintignore" eslintignore;;
  print "Created .eslintignore";;
  run_lint.

(** *** fix_final_eslint.py *)

Definition eslint_config : string :=
"import { FlatCompat } from '@eslint/eslintrc';
import path from 'path';
import { fileURLToPath } from 'url';

const __filename = fileURLToPath(import.meta.url);
const __dirname = path.dirname(__filename);

const compat = new FlatCompat({
  baseDirectory: __dirname
});

const config = [
  ...compat.extends('next/core-web-vitals', 'plugin:@typescript-eslint/recommended'),
  {
    rules: {
      '@typescript-eslint/no-unused-vars': [
        'error',
        {
          argsIgnorePattern: '^_',
          varsIgnorePattern: '^_',
          ignoreRestSiblings: true
        }
      ],
      '@typescript-eslint/no-explicit-any': 'error',
      '@typescript-eslint/no-require-imports': 'off',
      '@typescript-eslint/no-var-requires': 'off',
      'prefer-const': 'error',
      'react-hooks/exhaustive-deps': 'error'
    },
    ignores: ['scripts/**', 'test-*.js', '*.js', 'fix_*.py']
  }
];

export default config;
".

(** Remove old config *)
Definition remove_old_config : M unit :=
  found ← path_exists ".eslintrc.json";
  if (found : bool) then
    remove ".eslintrc.json";;
    print "Removed .eslintrc.json"
  else mret tt.

(** Remove old eslintignore *)
Definition remove_old_eslintignore : M unit :=
  found ← path_exists ".eslintignore";
  if (found : bool) then
    remove ".eslintignore";;
    print "Removed .eslintignore"
  else mret tt.

(** Fix chat-context types properly *)
Definition chat_context_fixes : list (string * string) :=
  [ ("} catch \(error\) {", "} catch (error) {");
    ("if \(error\?\.status",
     "if ((error as { status?: number })?.status");
    ("error\?\.message", "(error as { message?: string })?.message");
    ("const parsedThreads = result\.threads\.map\(\(thread: unknown\) => \(\{",
     "const parsedThreads = result.threads.map((thread: { id: string; title: string; messages: Array<{ id: string }> }) => ({");
    ("\(thread as \{ messages: unknown\[\] \}\)\.messages\.map\(\(msg: unknown\) => \(\{",
     "thread.messages.map((msg: { id: string }) => ({");
    ("// eslint-disable-next-line @typescript-eslint/no-explicit-any\n",
     "") ].

Definition fix_final_eslint : M unit :=
  fix_file "src/contexts/chat-context.tsx" chat_context_fixes;;
  fix_file "src/lib/security/xss-protection.ts"
    [ ("return String\(input\)",
       "return String(input as string | number | boolean)") ];;
  write_text os "eslint.config.mjs" eslint_config;;
  print "Created eslint.config.mjs with ignores";;
  remove_old_config;;
  remove_old_eslintignore;;
  run_lint.

End Scripts.

(** The three revisions of the script. *)
Inductive revision := FixEslint | FixAllEslint | FixFinalEslint.

Definition script (os : platform)
    (re_sub : string -> string -> string -> result string)
    (run_process : list string -> gmap string node ->
                   result completed_process * gmap string node)
    (rev : revision) : M unit :=
  match rev with
  | FixEslint => fix_eslint os re_sub run_process
  | FixAllEslint => fix_all_eslint os re_sub run_process
  | FixFinalEslint => fix_final_eslint os re_sub run_process
  end.

(** ** Observations on traces *)

Definition is_run (e : event) : bool :=
  match e with EvRun _ _ _ => true | _ => false end.

Definition is_write_to (path : string) (e : event) : bool :=
  match e with EvWrite p _ => String.eqb p path | _ => false end.

Definition is_print_of (text : string) (e : event) : bool :=
  match e with EvPrint t => String.eqb t text | _ => false end.

(** The run wrote [path]. *)
Definition wrote (path : string) (evs : list event) : bool :=
  existsb (is_write_to path) evs.

(** The run printed the line [text]. *)
Definition printed (text : string) (evs : list event) : bool :=
  existsb (is_print_of text) evs.

(** The run started no subprocess. *)
Definition no_run (evs : list event) : bool :=
  forallb (fun e => negb (is_run e)) evs.

(** What the tail of a script leaves in the trace when the linter printed
    [out] and [err]. *)
Definition lint_events (out err : string) : list event :=
  [ EvPrint (nl +:+ "Running ESLint to check remaining issues...");
    EvRun ["npm"; "run"; "lint"] out err;
    EvPrint out;
    EvPrint err ].

(** A computation that never starts a subprocess. *)
Definition quiet {A} (c : M A) : Prop :=
  forall fs, no_run (c fs).2 = true.

(** The shape of a finished run: either it returned, and its trace is some
    events without a subprocess followed by the linter's tail, or it raised
    and no subprocess had returned. *)
Definition lint_tail (run : result unit * gmap string node * list event)
  : Prop :=
  (run.1.1 = Ok tt /\
   exists pre out err, run.2 = pre ++ lint_events out err /\ no_run pre = true)
  \/ (exists e, run.1.1 = Raise e /\ no_run run.2 = true).




(** ** Paths a revision works on *)

(** The text a text-mode read of [path] would give. *)
Definition text_at (fs : gmap string node) (path : string) : option string :=
  match fs !! path with
  | Some (File data) => Some (universal_newlines data)
  | _ => None
  end.

(** The paths handed to [fix_file], in the order of the calls. *)
Definition patched_paths (rev : revision) : list string :=
  match rev with
  | FixEslint =>
      [ "src/app/(dashboard)/assistant/page.tsx";
        "src/app/api/reports/schedule/route.tsx";
        "src/app/reports/[id]/page.tsx";
        "src/app/runs/[id]/page.tsx";
        "src/components/reports/ReportModal.tsx";
        "src/components/reports/ReportPreview.tsx";
        "src/components/reports/ReportPlanCard.tsx";
        "src/app/signup/page.tsx";
        "src/contexts/supabase-session-context.tsx";
        "src/contexts/chat-context.tsx";
        "src/lib/security/xss-protection.ts";
        "src/lib/security/auth-manager.ts";
        "src/lib/supabase/server.ts";
        "src/app/api/onboarding/profile/route.ts";
        "src/app/api/onboarding/role/route.ts";
        "src/app/api/users/sync/route.ts" ]
  | FixAllEslint =>
      [ "src/app/(dashboard)/assistant/page.tsx";
        "src/app/api/reports/schedule/route.ts";
        "src/app/reports/[id]/page.tsx";
        "src/app/runs/[id]/page.tsx";
        "src/components/reports/ReportPlanCard.tsx";
        "src/app/api/integrations/[id]/credentials/route.ts";
        "src/app/api/onboarding/profile/route.ts";
        "src/app/api/onboarding/role/route.ts";
        "src/app/api/users/sync/route.ts";
        "src/contexts/chat-context.tsx";
        "src/lib/security/xss-protection.ts";
        "src/lib/supabase/server.ts";
        "src/app/signup/page.tsx";
        "src/contexts/supabase-session-context.tsx" ]
  | FixFinalEslint =>
      [ "src/contexts/chat-context.tsx";
        "src/lib/security/xss-protection.ts" ]
  end.

(** The configuration file a revision writes. *)
Definition created_paths (rev : revision) : list string :=
  match rev with
  | FixEslint => []
  | FixAllEslint => [".eslintignore"]
  | FixFinalEslint => ["eslint.config.mjs"]
  end.

(** The files a revision removes. *)
Definition removed_paths (rev : revision) : list string :=
  match rev with
  | FixFinalEslint => [".eslintrc.json"; ".eslintignore"]
  | _ => []
  end.

Definition mem (path : string) (paths : list string) : bool :=
  existsb (String.eqb path) paths.

(** Every path a revision may read, write or remove. *)
Definition touched_paths (rev : revision) : list string :=
  patched_paths rev ++ created_paths rev ++ removed_paths rev.

(** An event a revision is entitled to: reads of patched files, writes of
    patched files and of its configuration file, removals of its legacy
    files, and any console or subprocess event. *)
Definition allowed (rev : revision) (e : event) : bool :=
  match e with
  | EvRead p => mem p (patched_paths rev)
  | EvWrite p _ => mem p (patched_paths rev ++ created_paths rev)
  | EvRemove p => mem p (removed_paths rev)
  | EvPrint _ => true
  | EvRun _ _ _ => true
  end.

(** Every event of a computation satisfies [P]. *)
Definition emits_only {A} (P : event -> bool) (c : M A) : Prop :=
  forall fs, forallb P (c fs).2 = true.

(** A computation that, when it returns, has left the paths outside
    [paths] as they were. *)
Definition keeps {A} (paths : list string) (c : M A) : Prop :=
  forall fs a fs' evs,
    c fs = (Ok a, fs', evs) ->
    forall q, mem q paths = false -> fs' !! q = fs !! q.

(** A computation that, when it returns, has started the linter, on a
    file system [fs_l] related by [Q] to the one it began with, and ended
    with what the linter left. *)
Definition starts_lint_on
    (run_process : list string -> gmap string node ->
                   result completed_process * gmap string node)
    (Q : gmap string node -> gmap string node -> Prop) (c : M unit) : Prop :=
  forall fs fs' evs,
    c fs = (Ok tt, fs', evs) ->
    exists fs_l p,
      run_process ["npm"; "run"; "lint"] fs_l = (Ok p, fs') /\ Q fs fs_l.

(** The paths outside [paths] are the same in both file systems. *)
Definition same_outside (paths : list string) (fs fs1 : gmap string node)
  : Prop :=
  forall q, mem q paths = false -> fs1 !! q = fs !! q.

(** In the events [evs], each of [paths] has its "Fixed" line exactly if
    it was written. *)
Definition fixed_log (paths : list string) (evs : list event) : Prop :=
  forall p, mem p paths = true ->
    printed ("Fixed: " +:+ p) evs = wrote p evs.

(** What can follow the patches in a trace: nothing (a patch raised), the
    banner (the linter could not be started), or the linter's tail. *)
Definition lint_suffix (r : result unit) (tail : list event) : Prop :=
  (exists e, r = Raise e /\
     (tail = [] \/
      tail = [EvPrint (nl +:+ "Running ESLint to check remaining issues...")]))
  \/ (r = Ok tt /\ exists out err, tail = lint_events out err).

(** A run whose trace is patch events that log the fixes of [paths]
    faithfully, followed by what can follow the patches. *)
Definition logs_fixes (paths : list string)
    (run : result unit * gmap string node * list event) : Prop :=
  exists pre tail,
    run.2 = pre ++ tail /\ lint_suffix run.1.1 tail /\ fixed_log paths pre.

(** ** Sample inputs *)

(** A source tree with three of the patched files and the legacy linter
    configuration; the signup page matches none of its fixes. *)
Definition sample_fs : gmap string node :=
  {[ "src/lib/supabase/server.ts" := File "try { f() } catch (error) { g() }";
     "src/contexts/chat-context.tsx" := File "if (error?.status === 401) {";
     "src/app/signup/page.tsx" := File "const { error } = await signUp()";
     ".eslintrc.json" := File "{}" ]}.

(** Another tree with the same server file. *)
Definition sample_fs' : gmap string node :=
  {[ "src/lib/supabase/server.ts" := File "try { f() } catch (error) { g() }";
     "README.md" := File "antevus" ]}.

(** The fixes of fix_eslint.py for src/lib/supabase/server.ts and for
    src/app/signup/page.tsx. *)
Definition server_fixes : list (string * string) :=
  [ ("} catch \(error\) {", "} catch (_error) {") ].


(** A linter that reports one problem and leaves the files alone. *)
Definition sample_lint (argv : list string) (fs : gmap string node)
  : result completed_process * gmap string node :=
  (Ok (Completed "1 problem (1 error, 0 warnings)" "npm ERR! code 1"), fs).

(** * Properties *)

(** ** The matcher needs no more fuel than it is given *)

Module PyReFacts.

Import PyRe.

Lemma agree_le (n n' : nat) (k1 k2 : kont) :
  n' <= n -> agree n k1 k2 -> agree n' k1 k2.
Proof. intros Hle H cur cs Hc. apply H. lia. Qed.

Lemma one_local (p : ascii -> bool) : local (one p).
Proof.
  intros k1 k2 [bef [|c aft]] cs H; unfold one; simpl; [reflexivity|].
  destruct (p c); [|reflexivity]. apply H. unfold ahead. simpl. lia.
Qed.

Lemma one_forward (p : ascii -> bool) : forward (one p).
Proof.
  intros k [bef [|c aft]] cs res; unfold one; simpl; [discriminate|].
  destruct (p c); [|discriminate]. intros H.
  eexists _, _. split; [|exact H]. unfold ahead. simpl. lia.
Qed.

Lemma test_local (b : cursor -> bool) :
  local (fun k cur cs => if b cur then k cur cs else None).
Proof. intros k1 k2 cur cs H. destruct (b cur); [|reflexivity]. apply H. lia. Qed.

Lemma test_forward (b : cursor -> bool) :
  forward (fun k cur cs => if b cur then k cur cs else None).
Proof.
  intros k cur cs res. destruct (b cur); [|discriminate]. intros H.
  exists cur, cs. auto.
Qed.

Lemma rep_loop_local (body : kont -> kont) (lo : nat) (hi : option nat)
    (greedy : bool) :
  local body ->
  forall fuel count last, local (fun k => rep_loop body lo hi greedy k fuel count last).
Proof.
  intros Hbody fuel. induction fuel as [|fuel IH]; intros count last k1 k2 cur cs H;
    simpl; [reflexivity|].
  assert (Hk : k1 cur cs = k2 cur cs) by (apply H; lia).
  assert (Hb : forall c l,
    body (rep_loop body lo hi greedy k1 fuel c l) cur cs
    = body (rep_loop body lo hi greedy k2 fuel c l) cur cs).
  { intros c l. apply Hbody. intros cur' cs' Hle. apply IH.
    eapply agree_le; [exact Hle|exact H]. }
  destruct (count <? lo); [apply Hb|].
  rewrite Hk, Hb. reflexivity.
Qed.

Lemma rep_loop_forward (body : kont -> kont) (lo : nat) (hi : option nat)
    (greedy : bool) :
  forward body ->
  forall fuel count last, forward (fun k => rep_loop body lo hi greedy k fuel count last).
Proof.
  intros Hbody fuel. induction fuel as [|fuel IH]; intros count last k cur cs res;
    simpl; [discriminate|].
  assert (Hb : forall c l,
    body (rep_loop body lo hi greedy k fuel c l) cur cs = Some res ->
    exists cur' cs', ahead cur' <= ahead cur /\ k cur' cs' = Some res).
  { intros c l H. apply Hbody in H as (cur1 & cs1 & Hle1 & H).
    apply IH in H as (cur2 & cs2 & Hle2 & H).
    exists cur2, cs2. split; [lia|exact H]. }
  assert (Hk : k cur cs = Some res ->
    exists cur' cs', ahead cur' <= ahead cur /\ k cur' cs' = Some res).
  { intros H. exists cur, cs. auto. }
  destruct (count <? lo); [apply Hb|].
  set (again := match hi with Some h => count <? h | None => true end
                && match last with
                   | Some n => negb (n =? length (after cur))
                   | None => true
                   end).
  destruct greedy, again; unfold orelse; simpl;
    repeat match goal with
    | |- context [match ?x with Some _ => _ | None => _ end] =>
        destruct x eqn:?
    end;
    intros; simplify_eq; eauto; discriminate.
Qed.

Lemma m_local (r : regex) : local (m r).
Proof.
  induction r as [| | | | | | | | |r1 IH1 r2 IH2|r1 IH1 r2 IH2|i r IH|lo hi greedy r IH];
    try apply one_local; intros k1 k2 cur cs H; simpl.
  - apply H; lia.
  - apply (test_local at_bol _ _ _ _ H).
  - apply (test_local at_eol _ _ _ _ H).
  - apply (test_local (fun c => is_nil (before c)) _ _ _ _ H).
  - apply (test_local (fun c => is_nil (after c)) _ _ _ _ H).
  - apply (test_local (fun c => xorb neg (at_boundary c)) _ _ _ _ H).
  - apply IH1. intros cur' cs' Hle. apply IH2. eapply agree_le; eauto.
  - rewrite (IH1 _ _ _ _ H), (IH2 _ _ _ _ H). reflexivity.
  - apply IH. intros cur' cs' Hle. apply H. exact Hle.
  - apply (rep_loop_local _ _ _ _ IH). exact H.
Qed.

Lemma m_forward (r : regex) : forward (m r).
Proof.
  induction r as [| | | | | | | | |r1 IH1 r2 IH2|r1 IH1 r2 IH2|i r IH|lo hi greedy r IH];
    try apply one_forward; intros k cur cs res; simpl.
  - intros H. exists cur, cs. auto.
  - apply (test_forward at_bol).
  - apply (test_forward at_eol).
  - apply (test_forward (fun c => is_nil (before c))).
  - apply (test_forward (fun c => is_nil (after c))).
  - apply (test_forward (fun c => xorb neg (at_boundary c))).
  - intros H. apply IH1 in H as (cur1 & cs1 & Hle1 & H).
    apply IH2 in H as (cur2 & cs2 & Hle2 & H).
    exists cur2, cs2. split; [lia|exact H].
  - unfold orelse. destruct (m r1 k cur cs) eqn:H1.
    + intros [= <-]. apply (IH1 _ _ _ _ H1).
    + apply IH2.
  - intros H. apply IH in H as (cur1 & cs1 & Hle1 & H). eauto.
  - apply (rep_loop_forward _ _ _ _ IH).
Qed.

Lemma rep_need_pos (lo count : nat) (last : option nat) (cur : cursor) :
  0 < rep_need lo count last cur.
Proof.
  unfold rep_need. destruct last as [n|]; [destruct (n =? ahead cur)|]; lia.
Qed.

(** A mandatory iteration leaves a call that needs less. *)
Lemma rep_need_mandatory (lo count : nat) (last : option nat)
    (cur cur' : cursor) :
  count < lo -> ahead cur' <= ahead cur ->
  S (rep_need lo (S count) last cur') <= rep_need lo count last cur.
Proof.
  intros Hlo Hle. unfold rep_need. destruct last as [n|]; [|lia].
  destruct (Nat.eqb_spec n (ahead cur)) as [E1|E1],
    (Nat.eqb_spec n (ahead cur')) as [E2|E2]; lia.
Qed.

(** So does an optional iteration, which starts where the position has
    moved since the last one. *)
Lemma rep_need_optional (lo count : nat) (last : option nat)
    (cur cur' : cursor) :
  match last with Some n => negb (n =? ahead cur) | None => true end = true ->
  ahead cur' <= ahead cur ->
  S (rep_need lo (S count) (Some (ahead cur)) cur') <= rep_need lo count last cur.
Proof.
  intros Hmoved Hle. unfold rep_need.
  destruct (Nat.eqb_spec (ahead cur) (ahead cur')) as [E|E].
  - destruct last as [n|]; [destruct (n =? ahead cur); [discriminate|]|]; lia.
  - destruct last as [n|]; [destruct (n =? ahead cur); [discriminate|]|]; lia.
Qed.

(** With the fuel it needs, the repeat gives the same result as with any
    larger amount. *)
Lemma rep_loop_fuel (body : kont -> kont) (lo : nat) (hi : option nat)
    (greedy : bool) (k : kont) :
  local body ->
  forall fuel1 fuel2 count last cur cs,
    rep_need lo count last cur <= fuel1 ->
    rep_need lo count last cur <= fuel2 ->
    rep_loop body lo hi greedy k fuel1 count last cur cs
    = rep_loop body lo hi greedy k fuel2 count last cur cs.
Proof.
  intros Hbody fuel1.
  induction fuel1 as [|fuel1 IH]; intros fuel2 count last cur cs H1 H2.
  { pose proof (rep_need_pos lo count last cur). lia. }
  destruct fuel2 as [|fuel2].
  { pose proof (rep_need_pos lo count last cur). lia. }
  simpl. fold (ahead cur).
  destruct (count <? lo) eqn:Hlo.
  - apply Nat.ltb_lt in Hlo. apply Hbody. intros cur' cs' Hle.
    pose proof (rep_need_mandatory lo count last cur cur' Hlo Hle).
    apply IH; lia.
  - assert (Hb :
      match last with Some n => negb (n =? ahead cur) | None => true end = true ->
      body (rep_loop body lo hi greedy k fuel1 (S count) (Some (ahead cur))) cur cs
      = body (rep_loop body lo hi greedy k fuel2 (S count) (Some (ahead cur))) cur cs).
    { intros Hmoved. apply Hbody. intros cur' cs' Hle.
      pose proof (rep_need_optional lo count last cur cur' Hmoved Hle).
      apply IH; lia. }
    destruct (match hi with Some h => count <? h | None => true end); simpl;
      [|reflexivity].
    destruct (match last with Some n => negb (n =? ahead cur) | None => true end);
      simpl; [|reflexivity].
    rewrite (Hb eq_refl). reflexivity.
Qed.

(** The fuel [m] gives the repeat is what it needs. *)
Lemma repeat_fuel (lo : nat) (hi : option nat) (greedy : bool) (r : regex)
    (k : kont) (cur : cursor) (cs : caps) (fuel : nat) :
  lo + length (after cur) + 2 <= fuel ->
  rep_loop (m r) lo hi greedy k fuel 0 None cur cs
  = m (Repeat lo hi greedy r) k cur cs.
Proof.
  intros H. simpl. apply rep_loop_fuel; [apply m_local| |];
    unfold rep_need, ahead; lia.
Qed.

Lemma search_from_eq (r : regex) (must_advance : bool) (bef aft : list ascii) :
  search_from r must_advance bef aft =
    match m r (accept must_advance (Cursor bef aft)) (Cursor bef aft) [] with
    | Some (stop, cs) => Some (Cursor bef aft, stop, cs)
    | None =>
        match aft with
        | [] => None
        | c :: aft' => search_from r false (c :: bef) aft'
        end
    end.
Proof. destruct aft; reflexivity. Qed.

(** A match lies in the text ahead, and after an empty match the next one
    ends further on. *)
Lemma search_from_bounds (r : regex) (must_advance : bool)
    (bef aft : list ascii) (start stop : cursor) (cs : caps) :
  search_from r must_advance bef aft = Some (start, stop, cs) ->
  ahead stop <= ahead start /\ ahead start <= length aft /\
  (must_advance = true -> ahead stop < length aft).
Proof.
  revert must_advance bef.
  induction aft as [|c aft IH]; intros must_advance bef; rewrite search_from_eq.
  - destruct (m r _ _ []) as [[stop' cs']|] eqn:Hm; [|discriminate].
    intros [= <- <- <-].
    apply m_forward in Hm as (cur & cs1 & Hle & Hacc). unfold accept in Hacc.
    destruct must_advance; simpl in Hacc.
    + destruct (Nat.eqb_spec (length (after cur)) 0); [discriminate|].
      unfold ahead in *. simpl in *. lia.
    + injection Hacc as <- <-. unfold ahead in *. simpl in *. lia.
  - destruct (m r _ _ []) as [[stop' cs']|] eqn:Hm.
    + intros [= <- <- <-].
      apply m_forward in Hm as (cur & cs1 & Hle & Hacc). unfold accept in Hacc.
      destruct must_advance; simpl in Hacc.
      * destruct (Nat.eqb_spec (length (after cur)) (S (length aft)));
          [discriminate|].
        injection Hacc as <- <-. unfold ahead in *. simpl in *. lia.
      * injection Hacc as <- <-. unfold ahead in *. simpl in *. lia.
    + intros H. apply IH in H as (H1 & H2 & _). simpl. lia.
Qed.

(** With the fuel it needs, the substitution loop gives the same result as
    with any larger amount. *)
Lemma sub_loop_fuel (r : regex) (tpl : list titem) (fuel1 fuel2 : nat)
    (must_advance : bool) (bef aft : list ascii) :
  2 * length aft + (if must_advance then 1 else 2) <= fuel1 ->
  2 * length aft + (if must_advance then 1 else 2) <= fuel2 ->
  sub_loop fuel1 r tpl must_advance bef aft
  = sub_loop fuel2 r tpl must_advance bef aft.
Proof.
  revert fuel2 must_advance bef aft.
  induction fuel1 as [|fuel1 IH]; intros fuel2 must_advance bef aft H1 H2.
  { destruct must_advance; lia. }
  destruct fuel2 as [|fuel2]; [destruct must_advance; lia|].
  simpl.
  destruct (search_from r must_advance bef aft) as [[[start stop] cs]|] eqn:Hs;
    [|reflexivity].
  apply search_from_bounds in Hs as (Hstop & Hstart & Hadv).
  unfold ahead in *. do 2 f_equal.
  destruct (Nat.eqb_spec (length (after stop)) (length (after start)));
    destruct must_advance; try specialize (Hadv eq_refl); apply IH; lia.
Qed.

(** [sub] gives its loop the fuel it needs. *)
Lemma sub_fuel (r : regex) (tpl : list titem) (text : list ascii) (fuel : nat) :
  2 * length text + 3 <= fuel ->
  sub_loop fuel r tpl false [] text
  = sub_loop (2 * length text + 3) r tpl false [] text.
Proof. intros H. apply sub_loop_fuel; lia. Qed.

End PyReFacts.

(** ** [fix_file] *)

Section FixFile.

Context (os : platform)
        (re_sub : string -> string -> string -> result string).

Lemma fold_left_raise (fixes : list (string * string)) (e : exn) :
  fold_left (fun acc fx => content ← acc; re_sub fx.1 fx.2 content)
    fixes (Raise e) = Raise e.
Proof. induction fixes as [|fx fixes IH]; simpl; auto. Qed.

(** The loop of the code computes the fold of the specification. *)
Lemma apply_fixes_fold (fixes : list (string * string)) (content : string) :
  apply_fixes re_sub fixes content = fold_fixes re_sub fixes content.
Proof.
  unfold fold_fixes.
  revert content; induction fixes as [|[p r] fixes IH]; intros content; simpl.
  - reflexivity.
  - destruct (re_sub p r content) as [c|e]; simpl.
    + apply IH.
    + symmetry. apply fold_left_raise.
Qed.

(** A run, from its outcome. *)
Lemma run_eta {A} (run : result A * gmap string node * list event)
    (r : result A) :
  run.1.1 = r -> run = (r, run.1.2, run.2).
Proof. destruct run as [[r' fs] evs]. simpl. intros ->. reflexivity. Qed.

(** [fix_file] on a path that names nothing. *)
Lemma fix_file_absent (fs : gmap string node) (path : string)
    (fixes : list (string * string)) :
  fs !! path = None ->
  fix_file os re_sub path fixes fs =
    (Ok tt, fs, [EvPrint ("File not found: " +:+ path)]).
Proof.
  intros H. unfold fix_file, mbind, M_bind, path_exists.
  rewrite H. rewrite bool_decide_eq_false_2 by (intros [? ?]; discriminate).
  reflexivity.
Qed.

(** [fix_file] on a directory: [open] raises. *)
Lemma fix_file_dir (fs : gmap string node) (path : string)
    (fixes : list (string * string)) :
  fs !! path = Some Dir ->
  fix_file os re_sub path fixes fs = (Raise (IsADirectoryError path), fs, []).
Proof.
  intros H. unfold fix_file, mbind, M_bind, path_exists, read_text.
  rewrite H. rewrite bool_decide_eq_true_2 by eauto. simpl.
  rewrite H. reflexivity.
Qed.

(** [fix_file] on a regular file, by the outcome of the loop. *)
Lemma fix_file_file (fs : gmap string node) (path data : string)
    (fixes : list (string * string)) :
  fs !! path = Some (File data) ->
  fix_file os re_sub path fixes fs =
    match apply_fixes re_sub fixes (universal_newlines data) with
    | Ok content =>
        if String.eqb content (universal_newlines data)
        then (Ok tt, fs, [EvRead path])
        else (Ok tt, <[path := File (translate_newlines os content)]> fs,
              [EvRead path; EvWrite path (translate_newlines os content);
               EvPrint ("Fixed: " +:+ path)])
    | Raise e => (Raise e, fs, [EvRead path])
    end.
Proof.
  intros H.
  unfold fix_file, mbind, M_bind, path_exists, read_text, lift,
    write_text, print, mret, M_ret.
  rewrite H. rewrite bool_decide_eq_true_2 by eauto. simpl. rewrite H.
  destruct (apply_fixes re_sub fixes (universal_newlines data)) as [c|e];
    [|reflexivity].
  destruct (String.eqb c (universal_newlines data)); simpl; [reflexivity|].
  rewrite H. reflexivity.
Qed.

Lemma wrote_after_fix (path data : string) :
  wrote path [EvRead path; EvWrite path data; EvPrint ("Fixed: " +:+ path)]
  = true.
Proof. unfold wrote; simpl. rewrite String.eqb_refl. reflexivity. Qed.

Lemma printed_after_fix (path data : string) :
  printed ("Fixed: " +:+ path)
    [EvRead path; EvWrite path data; EvPrint ("Fixed: " +:+ path)] = true.
Proof.
  unfold printed, is_print_of. cbn [existsb]. rewrite String.eqb_refl.
  reflexivity.
Qed.


(** When a substitution raises, [fix_file] raises the same exception
    after the read and leaves the file alone. *)
Lemma fix_file_fold_raise (fs : gmap string node) (path data : string)
    (fixes : list (string * string)) (e : exn) :
  fs !! path = Some (File data) ->
  fold_fixes re_sub fixes (universal_newlines data) = Raise e ->
  fix_file os re_sub path fixes fs = (Raise e, fs, [EvRead path]).
Proof.
  intros Hfile Hfold. rewrite <- apply_fixes_fold in Hfold.
  rewrite (fix_file_file _ _ _ _ Hfile), Hfold. reflexivity.
Qed.

(** C4. On a path that does not exist, [fix_file] prints the "File not
    found" line and nothing else happens: no read, no write, no exception;
    it returns normally. *)
Theorem fix_file_not_found (fs : gmap string node) (path : string)
    (fixes : list (string * string)) :
  fs !! path = None ->
  fix_file os re_sub path fixes fs =
    (Ok tt, fs, [EvPrint ("File not found: " +:+ path)]).
Proof. apply fix_file_absent. Qed.


(** C9. [fix_file] prints the "Fixed" line exactly when it writes the
    file; on an existing file that is exactly when the fold of the
    substitutions differs from the text read.  A write leaves the written
    content in the file, and without a write the file system is as
    before. *)
Theorem fixed_iff_written (fs : gmap string node) (path : string)
    (fixes : list (string * string)) (r : result unit)
    (fs' : gmap string node) (evs : list event) :
  fix_file os re_sub path fixes fs = (r, fs', evs) ->
  printed ("Fixed: " +:+ path) evs = wrote path evs /\
  (forall data content,
     fs !! path = Some (File data) ->
     fold_fixes re_sub fixes (universal_newlines data) = Ok content ->
     (wrote path evs = true <-> content <> universal_newlines data) /\
     (wrote path evs = true ->
      fs' !! path = Some (File (translate_newlines os content)))) /\
  (wrote path evs = false -> fs' = fs).
Proof.
  intros Hrun.
  destruct (fs !! path) as [[data|]|] eqn:Hfile.
  - rewrite (fix_file_file _ _ _ _ Hfile) in Hrun.
    destruct (apply_fixes re_sub fixes (universal_newlines data))
      as [c|e] eqn:Happ.
    + destruct (String.eqb_spec c (universal_newlines data)) as [Heq|Hne];
        injection Hrun as <- <- <-.
      * split; [reflexivity|]. split; [|reflexivity].
        intros data' content Hd Hfold. injection Hd as <-.
        rewrite <- apply_fixes_fold, Happ in Hfold. injection Hfold as <-.
        split; [|discriminate]. split; [discriminate|contradiction].
      * rewrite wrote_after_fix, printed_after_fix.
        split; [reflexivity|]. split; [|discriminate].
        intros data' content Hd Hfold. injection Hd as <-.
        rewrite <- apply_fixes_fold, Happ in Hfold. injection Hfold as <-.
        split; [tauto|]. intros _. apply lookup_insert_eq.
    + injection Hrun as <- <- <-.
      split; [reflexivity|]. split; [|reflexivity].
      intros data' content Hd Hfold. injection Hd as <-.
      rewrite <- apply_fixes_fold, Happ in Hfold. discriminate.
  - rewrite (fix_file_dir _ _ _ Hfile) in Hrun. injection Hrun as <- <- <-.
    split; [reflexivity|]. split; [|reflexivity]. intros ? ? [=].
  - rewrite (fix_file_absent _ _ _ Hfile) in Hrun. injection Hrun as <- <- <-.
    split; [reflexivity|]. split; [|reflexivity]. intros ? ? [=].
Qed.

(** C10. Two runs of [fix_file] with the same fixes on file systems that
    agree at the path (both without it, or both with the same content)
    return alike, emit the same events (the same decision to write and the
    same printed lines) and leave the same content at the path. *)
Theorem fix_file_deterministic (fs1 fs2 : gmap string node) (path : string)
    (fixes : list (string * string)) :
  fs1 !! path = fs2 !! path ->
  (fix_file os re_sub path fixes fs1).1.1 = (fix_file os re_sub path fixes fs2).1.1 /\
  (fix_file os re_sub path fixes fs1).2 = (fix_file os re_sub path fixes fs2).2 /\
  (fix_file os re_sub path fixes fs1).1.2 !! path
  = (fix_file os re_sub path fixes fs2).1.2 !! path.
Proof.
  intros Hsame.
  destruct (fs1 !! path) as [[data|]|] eqn:H1; symmetry in Hsame.
  - rewrite (fix_file_file _ _ _ _ H1), (fix_file_file _ _ _ _ Hsame).
    destruct (apply_fixes re_sub fixes (universal_newlines data)) as [c|e];
      [destruct (String.eqb c (universal_newlines data))|]; simpl;
      rewrite ?lookup_insert_eq, ?H1, ?Hsame; auto.
  - rewrite (fix_file_dir _ _ _ H1), (fix_file_dir _ _ _ Hsame); simpl.
    rewrite H1, Hsame. auto.
  - rewrite (fix_file_absent _ _ _ H1), (fix_file_absent _ _ _ Hsame); simpl.
    rewrite H1, Hsame. auto.
Qed.

End FixFile.

(** ** Substitutions that find no match *)

Section NoMatch.

Import PyRe.








End NoMatch.

(** ** A match whose replacement changes nothing *)

Section Match.

Import PyRe.



End Match.

(** ** Configuration files *)

Section Config.

(** The unguarded call: removing a path that does not exist raises. *)
Lemma remove_absent_raises (fs : gmap string node) (path : string) :
  fs !! path = None ->
  remove path fs = (Raise (FileNotFoundError path), fs, []).
Proof. intros H. unfold remove. rewrite H. reflexivity. Qed.

(** C5. In the final revision each legacy file is removed only after an
    existence check: when the file does not exist the step does nothing
    (no removal, no message) and returns normally. *)
Theorem remove_old_absent (fs : gmap string node) :
  (fs !! ".eslintrc.json" = None ->
   remove_old_config fs = (Ok tt, fs, [])) /\
  (fs !! ".eslintignore" = None ->
   remove_old_eslintignore fs = (Ok tt, fs, [])).
Proof.
  split; intros H;
    unfold remove_old_config, remove_old_eslintignore, mbind, M_bind,
      path_exists;
    rewrite H; rewrite bool_decide_eq_false_2 by (intros [? ?]; discriminate);
    reflexivity.
Qed.

Lemma universal_translate (os : platform) (s : string) :
  no_cr s = true ->
  universal_newlines (translate_newlines os s) = s.
Proof.
  induction s as [|c s IH]; simpl; [reflexivity|].
  intros H. apply andb_true_iff in H as [Hc Hs]. apply negb_true_iff in Hc.
  specialize (IH Hs).
  destruct (Ascii.eqb_spec c lf) as [->|Hlf].
  - destruct os; cbv [linesep nl String.append]; simpl; rewrite IH; reflexivity.
  - simpl. rewrite Hc, IH. reflexivity.
Qed.

(** Writing a text without carriage returns and reading the file back
    gives the text. *)
Lemma write_then_read (os : platform) (fs : gmap string node)
    (path text : string) :
  fs !! path <> Some Dir ->
  no_cr text = true ->
  exists fs1,
    write_text os path text fs
      = (Ok tt, fs1, [EvWrite path (translate_newlines os text)]) /\
    fs1 !! path = Some (File (translate_newlines os text)) /\
    read_text path fs1 = (Ok text, fs1, [EvRead path]).
Proof.
  intros Hdir Hcr. exists (<[path := File (translate_newlines os text)]> fs).
  split; [|split].
  - unfold write_text. destruct (fs !! path) as [[d|]|]; congruence.
  - apply lookup_insert_eq.
  - unfold read_text. rewrite lookup_insert_eq.
    rewrite (universal_translate _ _ Hcr). reflexivity.
Qed.

(** C6. Writing the linter configuration of the final revision (and the
    ignore file of the revision before it) and reading the file back gives
    exactly the string that was written; on a POSIX system the bytes stored
    are that string. *)
Theorem config_round_trip (os : platform) (fs : gmap string node) :
  (fs !! "eslint.config.mjs" <> Some Dir ->
   exists fs1 evs,
     write_text os "eslint.config.mjs" eslint_config fs = (Ok tt, fs1, evs) /\
     read_text "eslint.config.mjs" fs1
       = (Ok eslint_config, fs1, [EvRead "eslint.config.mjs"]) /\
     (os = Posix -> fs1 !! "eslint.config.mjs" = Some (File eslint_config))) /\
  (fs !! ".eslintignore" <> Some Dir ->
   exists fs1 evs,
     write_text os ".eslintignore" eslintignore fs = (Ok tt, fs1, evs) /\
     read_text ".eslintignore" fs1
       = (Ok eslintignore, fs1, [EvRead ".eslintignore"]) /\
     (os = Posix -> fs1 !! ".eslintignore" = Some (File eslintignore))).
Proof.
  split; intros Hdir.
  - destruct (write_then_read os fs _ eslint_config Hdir eq_refl)
      as (fs1 & Hw & Hl & Hr).
    eexists fs1, _. split; [exact Hw|]. split; [exact Hr|].
    intros ->. rewrite Hl. reflexivity.
  - destruct (write_then_read os fs _ eslintignore Hdir eq_refl)
      as (fs1 & Hw & Hl & Hr).
    eexists fs1, _. split; [exact Hw|]. split; [exact Hr|].
    intros ->. rewrite Hl. reflexivity.
Qed.

End Config.

(** ** The linter runs last *)

Section Lint.

Context (os : platform)
        (re_sub : string -> string -> string -> result string)
        (run_process : list string -> gmap string node ->
                       result completed_process * gmap string node).

Lemma no_run_app (l1 l2 : list event) :
  no_run (l1 ++ l2) = no_run l1 && no_run l2.
Proof. apply forallb_app. Qed.

Lemma quiet_print (text : string) : quiet (print text).
Proof. intros fs. reflexivity. Qed.

Lemma quiet_ret {A} (a : A) : quiet (mret a : M A).
Proof. intros fs. reflexivity. Qed.

Lemma quiet_write_text (path text : string) : quiet (write_text os path text).
Proof. intros fs. unfold write_text. destruct (fs !! path) as [[d|]|]; reflexivity. Qed.

Lemma quiet_remove (path : string) : quiet (remove path).
Proof. intros fs. unfold remove. destruct (fs !! path) as [[d|]|]; reflexivity. Qed.

Lemma quiet_path_exists (path : string) : quiet (path_exists path).
Proof. intros fs. reflexivity. Qed.

Lemma quiet_bind {A B} (c : M A) (f : A -> M B) :
  quiet c -> (forall a, quiet (f a)) -> quiet (c ≫= f).
Proof.
  intros Hc Hf fs. unfold mbind, M_bind. specialize (Hc fs).
  destruct (c fs) as [[[a|e] fs1] e1]; simpl in *; [|exact Hc].
  specialize (Hf a fs1). destruct (f a fs1) as [[r fs2] e2]; simpl in *.
  rewrite no_run_app, Hc, Hf. reflexivity.
Qed.

Lemma quiet_fix_file (path : string) (fixes : list (string * string)) :
  quiet (fix_file os re_sub path fixes).
Proof.
  intros fs. destruct (fs !! path) as [[data|]|] eqn:H.
  - rewrite (fix_file_file _ _ _ _ _ _ H).
    destruct (apply_fixes re_sub fixes (universal_newlines data)) as [c|e];
      [destruct (String.eqb c (universal_newlines data))|]; reflexivity.
  - rewrite (fix_file_dir _ _ _ _ _ H). reflexivity.
  - rewrite (fix_file_absent _ _ _ _ _ H). reflexivity.
Qed.

Lemma quiet_remove_old_config : quiet remove_old_config.
Proof.
  apply quiet_bind; [apply quiet_path_exists|]. intros [|].
  - apply quiet_bind; [apply quiet_remove|]. intros _. apply quiet_print.
  - apply quiet_ret.
Qed.

Lemma quiet_remove_old_eslintignore : quiet remove_old_eslintignore.
Proof.
  apply quiet_bind; [apply quiet_path_exists|]. intros [|].
  - apply quiet_bind; [apply quiet_remove|]. intros _. apply quiet_print.
  - apply quiet_ret.
Qed.

(** What [run_lint] does, by the outcome of the subprocess. *)
Lemma run_lint_run (fs : gmap string node) :
  run_lint run_process fs =
    match run_process ["npm"; "run"; "lint"] fs with
    | (Ok p, fs1) => (Ok tt, fs1, lint_events (stdout p) (stderr p))
    | (Raise e, fs1) =>
        (Raise e, fs1,
         [EvPrint (nl +:+ "Running ESLint to check remaining issues...")])
    end.
Proof.
  unfold run_lint, mbind, M_bind, print, subprocess_run. simpl.
  destruct (run_process ["npm"; "run"; "lint"] fs) as [[p|e] fs1]; reflexivity.
Qed.

Lemma run_lint_tail (fs : gmap string node) : lint_tail (run_lint run_process fs).
Proof.
  rewrite run_lint_run.
  destruct (run_process ["npm"; "run"; "lint"] fs) as [[p|e] fs1].
  - left. split; [reflexivity|]. exists [], (stdout p), (stderr p). auto.
  - right. exists e. auto.
Qed.

(** A quiet step before a computation that ends with the linter. *)
Lemma lint_tail_bind {A} (c : M A) (f : A -> M unit) :
  quiet c ->
  (forall a fs, lint_tail (f a fs)) ->
  forall fs, lint_tail ((c ≫= f) fs).
Proof.
  intros Hc Hf fs. unfold mbind, M_bind. specialize (Hc fs).
  destruct (c fs) as [[[a|e] fs1] e1]; simpl in Hc.
  - specialize (Hf a fs1). destruct (f a fs1) as [[r fs2] e2].
    destruct Hf as [[Hr (pre & out & err & He & Hpre)]|(e & Hr & He)];
      simpl in *; subst.
    + left. split; [reflexivity|]. exists (e1 ++ pre), out, err.
      split; [apply app_assoc|]. rewrite no_run_app, Hc, Hpre. reflexivity.
    + right. exists e. split; [reflexivity|]. simpl.
      rewrite no_run_app, Hc, He. reflexivity.
  - right. exists e. auto.
Qed.

Ltac lint_tail_steps :=
  lazymatch goal with
  | |- forall fs, lint_tail (run_lint _ fs) => apply run_lint_tail
  | |- _ =>
      apply lint_tail_bind;
      [ first [ apply quiet_fix_file | apply quiet_write_text
              | apply quiet_print | apply quiet_remove_old_config
              | apply quiet_remove_old_eslintignore ]
      | intros _; lint_tail_steps ]
  end.

(** Every revision ends with the linter's tail. *)
Lemma script_lint_tail (rev : revision) (fs : gmap string node) :
  lint_tail (script os re_sub run_process rev fs).
Proof.
  revert fs. destruct rev; cbv [script].
  - unfold fix_eslint. lint_tail_steps.
  - unfold fix_all_eslint. lint_tail_steps.
  - unfold fix_final_eslint. lint_tail_steps.
Qed.

Lemma no_run_with_run (pre post : list event) (argv : list string)
    (out err : string) :
  no_run (pre ++ EvRun argv out err :: post) = false.
Proof.
  rewrite no_run_app. simpl. apply andb_false_r.
Qed.

(** A trace that ends with the linter's tail after events without a
    subprocess can be split at a subprocess in one way only. *)
Lemma lint_events_split (pre0 : list event) (out0 err0 : string)
    (pre : list event) (argv : list string) (out err : string)
    (post : list event) :
  no_run pre0 = true ->
  pre0 ++ lint_events out0 err0 = pre ++ EvRun argv out err :: post ->
  no_run pre = true /\ argv = ["npm"; "run"; "lint"] /\
  post = [EvPrint out; EvPrint err].
Proof.
  revert pre. induction pre0 as [|e0 pre0 IH]; intros pre Hq Heq.
  - simpl in Heq. destruct pre as [|x [|y pre]]; simpl in Heq.
    + discriminate.
    + injection Heq as <- <- <- <- <-. auto.
    + injection Heq as <- <- Heq.
      destruct pre as [|a [|b [|c pre]]]; discriminate.
  - simpl in Hq. apply andb_true_iff in Hq as [He0 Hq].
    destruct pre as [|x pre]; simpl in Heq.
    + injection Heq as -> _. discriminate.
    + injection Heq as <- Heq. destruct (IH _ Hq Heq) as (Hp & Ha & Hpost).
      simpl. rewrite He0, Hp. auto.
Qed.

(** A sequence that returns: both parts returned, one after the other. *)
Lemma bind_ok_inv {A B} (c : M A) (f : A -> M B) (fs : gmap string node)
    (b : B) (fs' : gmap string node) (evs : list event) :
  (c ≫= f) fs = (Ok b, fs', evs) ->
  exists a fs1 e1 e2,
    c fs = (Ok a, fs1, e1) /\ f a fs1 = (Ok b, fs', e2) /\ evs = e1 ++ e2.
Proof.
  unfold mbind, M_bind. destruct (c fs) as [[[a|e] fs1] e1]; [|discriminate].
  destruct (f a fs1) as [[r fs2] e2] eqn:Hf. intros [= -> -> <-].
  exists a, fs1, e1, e2. auto.
Qed.

(** [fix_file] touches no other path. *)
Lemma fix_file_frame (path : string) (fixes : list (string * string))
    (fs : gmap string node) (q : string) :
  q <> path ->
  (fix_file os re_sub path fixes fs).1.2 !! q = fs !! q.
Proof.
  intros Hq. destruct (fs !! path) as [[data|]|] eqn:H.
  - rewrite (fix_file_file _ _ _ _ _ _ H).
    destruct (apply_fixes re_sub fixes (universal_newlines data)) as [c|e];
      [destruct (String.eqb c (universal_newlines data))|]; simpl; auto.
    apply lookup_insert_ne. congruence.
  - rewrite (fix_file_dir _ _ _ _ _ H). reflexivity.
  - rewrite (fix_file_absent _ _ _ _ _ H). reflexivity.
Qed.

(** A successful write: the event, and the other paths untouched. *)
Lemma write_text_ok_inv (path text : string) (fs fs' : gmap string node)
    (evs : list event) :
  write_text os path text fs = (Ok tt, fs', evs) ->
  evs = [EvWrite path (translate_newlines os text)] /\
  forall q, q <> path -> fs' !! q = fs !! q.
Proof.
  unfold write_text.
  destruct (fs !! path) as [[d|]|]; intros [= <- <-]; (split; [reflexivity|]);
    intros q Hq; apply lookup_insert_ne; congruence.
Qed.

(** A guarded removal that returns: the file is gone if it was there, with
    its event, and the other paths are untouched. *)
Lemma guarded_remove_ok_inv (path msg : string) (fs fs' : gmap string node)
    (evs : list event) :
  (found ← path_exists path;
   if (found : bool) then remove path;; print msg else mret tt) fs
    = (Ok tt, fs', evs) ->
  (is_Some (fs !! path) -> In (EvRemove path) evs) /\
  forall q, q <> path -> fs' !! q = fs !! q.
Proof.
  unfold mbind, M_bind, path_exists, remove, print, mret, M_ret.
  destruct (fs !! path) as [[d|]|] eqn:H.
  - rewrite bool_decide_eq_true_2 by eauto. simpl. rewrite H.
    intros [= <- <-]. split; [intros _; left; reflexivity|].
    intros q Hq. apply lookup_delete_ne. congruence.
  - rewrite bool_decide_eq_true_2 by eauto. simpl. rewrite H. discriminate.
  - rewrite bool_decide_eq_false_2 by (intros [? ?]; discriminate).
    intros [= <- <-]. split; [intros [? ?]; discriminate|]. auto.
Qed.

(** The final revision, when it returns: the configuration was written
    and every legacy file present at the start was removed, all before
    the linter's tail. *)
Lemma fix_final_patches (fs fs' : gmap string node) (evs : list event) :
  fix_final_eslint os re_sub run_process fs = (Ok tt, fs', evs) ->
  exists pre out err,
    evs = pre ++ lint_events out err /\
    In (EvWrite "eslint.config.mjs" (translate_newlines os eslint_config)) pre /\
    forall p, p = ".eslintrc.json" \/ p = ".eslintignore" ->
              is_Some (fs !! p) -> In (EvRemove p) pre.
Proof.
  unfold fix_final_eslint. intros H.
  apply bind_ok_inv in H as ([] & fs1 & e1 & t1 & H1 & H & ->).
  apply bind_ok_inv in H as ([] & fs2 & e2 & t2 & H2 & H & ->).
  apply bind_ok_inv in H as ([] & fs3 & e3 & t3 & H3 & H & ->).
  apply bind_ok_inv in H as ([] & fs4 & e4 & t4 & H4 & H & ->).
  apply bind_ok_inv in H as ([] & fs5 & e5 & t5 & H5 & H & ->).
  apply bind_ok_inv in H as ([] & fs6 & e6 & t6 & H6 & H & ->).
  rewrite run_lint_run in H.
  destruct (run_process ["npm"; "run"; "lint"] fs6) as [[p|e] fs7];
    [|discriminate]. injection H as <- <-.
  apply write_text_ok_inv in H3 as [-> F3].
  injection H4 as <- <-.
  apply guarded_remove_ok_inv in H5 as [R5 F5].
  apply guarded_remove_ok_inv in H6 as [R6 F6].
  assert (F1 : forall q, q <> "src/contexts/chat-context.tsx" -> fs1 !! q = fs !! q).
  { intros q Hq. rewrite <- (fix_file_frame _ chat_context_fixes fs q Hq).
    rewrite H1. reflexivity. }
  assert (F2 : forall q, q <> "src/lib/security/xss-protection.ts" ->
                         fs2 !! q = fs1 !! q).
  { intros q Hq. erewrite <- (fix_file_frame _ _ fs1 q Hq).
    rewrite H2. reflexivity. }
  exists (e1 ++ e2 ++ [EvWrite "eslint.config.mjs"
                         (translate_newlines os eslint_config)]
          ++ [EvPrint "Created eslint.config.mjs with ignores"] ++ e5 ++ e6),
    (stdout p), (stderr p).
  split; [|split].
  - rewrite <- !app_assoc. reflexivity.
  - rewrite !in_app_iff. right; right; left. left. reflexivity.
  - intros q [-> | ->] Hsome; rewrite !in_app_iff.
    + right; right; right; right; left. apply R5.
      rewrite F3, F2, F1 by discriminate. exact Hsome.
    + right; right; right; right; right. apply R6.
      rewrite F5, F3, F2, F1 by discriminate. exact Hsome.
Qed.

(** C7. In every revision the linter is started after everything else:
    whenever the trace has a subprocess, the script returned, the
    subprocess is [npm run lint], no other subprocess came before it, and
    what follows it is its captured standard output printed, then its
    captured standard error printed, and nothing more; so every read,
    write and removal comes before it.  A script that returns has such a
    trace, and in the final revision the events before the linter include
    the write of the configuration and the removal of each legacy file that
    was there. *)
Theorem lint_runs_last (rev : revision) (fs : gmap string node)
    (r : result unit) (fs' : gmap string node) (evs : list event) :
  script os re_sub run_process rev fs = (r, fs', evs) ->
  (forall pre argv out err post,
     evs = pre ++ EvRun argv out err :: post ->
     r = Ok tt /\ no_run pre = true /\ argv = ["npm"; "run"; "lint"] /\
     post = [EvPrint out; EvPrint err]) /\
  (r = Ok tt ->
   exists pre out err,
     evs = pre ++ lint_events out err /\ no_run pre = true /\
     (rev = FixFinalEslint ->
      In (EvWrite "eslint.config.mjs" (translate_newlines os eslint_config))
        pre /\
      forall p, p = ".eslintrc.json" \/ p = ".eslintignore" ->
                is_Some (fs !! p) -> In (EvRemove p) pre)).
Proof.
  intros Hrun. pose proof (script_lint_tail rev fs) as Htail.
  rewrite Hrun in Htail. unfold lint_tail in Htail. simpl in Htail.
  destruct Htail as [[-> (pre0 & out0 & err0 & -> & Hq)]|(e & -> & Hq)].
  - split.
    + intros pre argv out err post Heq.
      destruct (lint_events_split _ _ _ _ _ _ _ _ Hq Heq) as (? & ? & ?). auto.
    + intros _. exists pre0, out0, err0. split; [reflexivity|].
      split; [exact Hq|]. intros ->. simpl in Hrun.
      destruct (fix_final_patches _ _ _ Hrun) as (pre & out & err & Heq & Hw & Hrm).
      assert (pre = pre0) as ->; [|auto].
      unfold lint_events in Heq.
      assert (Hlen : length pre0 = length pre).
      { apply (f_equal length) in Heq. rewrite !length_app in Heq.
        simpl in Heq. lia. }
      apply app_inj_1 in Heq; [symmetry; tauto|exact Hlen].
  - split; [|discriminate].
    intros pre argv out err post ->. rewrite no_run_with_run in Hq.
    discriminate.
Qed.

End Lint.

(** ** The scripts run to their end *)

Section Returns.

Import PyRe.

Context (os : platform)
        (run_process : list string -> gmap string node ->
                       result completed_process * gmap string node).













End Returns.

(** ** Sample runs *)

(** The engine on entries of the tables: a lazy repeat up to a brace at
    the start of a line, and a template with a group reference. *)
Example sub_validate_production_config :
  PyRe.sub "function validateProductionConfig[\s\S]*?^}" ""
    ("const a = 1" +:+ nl +:+
     "function validateProductionConfig() {" +:+ nl +:+
     "  if (x) {" +:+ nl +:+
     "    y()" +:+ nl +:+
     "  }" +:+ nl +:+
     "}" +:+ nl +:+
     "export {}" +:+ nl)
  = Ok ("const a = 1" +:+ nl +:+ nl +:+ "export {}" +:+ nl).
Proof. vm_compute. reflexivity. Qed.

(** Dot-all matching against the whole text: the greedy [.*] of the
    reports-page fix runs across line ends to the end of the file. *)
Example sub_dot_all :
  PyRe.sub "import { .*, Calendar, Clock,.*"
    "import { ArrowLeft, Download, Mail, Share2, CheckCircle2, XCircle, AlertCircle } from 'lucide-react';"
    ("'use client'" +:+ nl +:+
     "import { ArrowLeft, Calendar, Clock, Mail } from 'lucide-react'" +:+ nl +:+
     "export default function Page() {}" +:+ nl)
  = Ok ("'use client'" +:+ nl +:+
        "import { ArrowLeft, Download, Mail, Share2, CheckCircle2, XCircle, AlertCircle } from 'lucide-react';").
Proof. vm_compute. reflexivity. Qed.

(** The fixes of the assistant page in fix_all_eslint.py, in order. *)
Example apply_assistant_fixes :
  apply_fixes PyRe.sub assistant_fixes
    ("const handleSubmit = async (e: React.FormEvent) => {" +:+ nl +:+
     "    const originalInput = input.trim()" +:+ nl +:+
     "    (window as any).__pendingProtocol = null" +:+ nl)
  = Ok ("const handleSubmit = async (e: React.FormEvent) => {" +:+ nl +:+
        "    const originalInput = input.trim()" +:+ nl +:+
        nl +:+
        "    // Type for window with protocol" +:+ nl +:+
        "    interface WindowWithProtocol extends Window {" +:+ nl +:+
        "      __pendingProtocol?: { protocolId: string; threadId: string; messageId: string };" +:+ nl +:+
        "    }" +:+ nl +:+
        "    (window as unknown as WindowWithProtocol).__pendingProtocol = null" +:+ nl).
Proof. vm_compute. reflexivity. Qed.




(** C4 on a path [sample_fs] does not have. *)
Lemma fix_file_not_found_witness :
  fix_file Posix PyRe.sub "src/lib/security/auth-manager.ts"
    [("function validateProductionConfig[\s\S]*?^}", "")] sample_fs
  = (Ok tt, sample_fs,
     [EvPrint "File not found: src/lib/security/auth-manager.ts"]).
Proof.
  apply (fix_file_not_found Posix PyRe.sub sample_fs
           "src/lib/security/auth-manager.ts").
  vm_compute. reflexivity.
Defined.

(** C5 on a tree without the legacy files. *)
Lemma remove_old_absent_witness :
  remove_old_config sample_fs' = (Ok tt, sample_fs', []) /\
  remove_old_eslintignore sample_fs' = (Ok tt, sample_fs', []).
Proof.
  destruct (remove_old_absent sample_fs') as [H1 H2].
  split; [apply H1|apply H2]; vm_compute; reflexivity.
Defined.

(** C6 with Windows line endings. *)
Lemma config_round_trip_witness :
  exists fs1 evs,
    write_text Windows "eslint.config.mjs" eslint_config sample_fs
      = (Ok tt, fs1, evs) /\
    read_text "eslint.config.mjs" fs1
      = (Ok eslint_config, fs1, [EvRead "eslint.config.mjs"]).
Proof.
  destruct (config_round_trip Windows sample_fs) as [H _].
  destruct H as (fs1 & evs & Hw & Hr & _).
  - vm_compute. discriminate.
  - exists fs1, evs. auto.
Defined.

(** C7 on a run of the final revision that returns. *)
Lemma lint_runs_last_witness :
  exists pre out err,
    (fix_final_eslint Posix PyRe.sub sample_lint sample_fs).2
      = pre ++ lint_events out err /\
    no_run pre = true /\
    In (EvWrite "eslint.config.mjs" eslint_config) pre /\
    In (EvRemove ".eslintrc.json") pre.
Proof.
  destruct (lint_runs_last Posix PyRe.sub sample_lint FixFinalEslint sample_fs
              (Ok tt)
              (fix_final_eslint Posix PyRe.sub sample_lint sample_fs).1.2
              (fix_final_eslint Posix PyRe.sub sample_lint sample_fs).2)
    as [_ H].
  - apply run_eta. vm_compute. reflexivity.
  - destruct (H eq_refl) as (pre & out & err & Heq & Hq & Hfinal).
    destruct (Hfinal eq_refl) as [Hw Hrm].
    exists pre, out, err. split; [exact Heq|]. split; [exact Hq|].
    split; [exact Hw|]. apply Hrm; [left; reflexivity|].
    vm_compute. eauto.
Defined.


(** C9 on a run that writes. *)
Lemma fixed_iff_written_witness :
  printed "Fixed: src/lib/supabase/server.ts"
    (fix_file Posix PyRe.sub "src/lib/supabase/server.ts" server_fixes
       sample_fs).2 = true /\
  wrote "src/lib/supabase/server.ts"
    (fix_file Posix PyRe.sub "src/lib/supabase/server.ts" server_fixes
       sample_fs).2 = true.
Proof.
  destruct (fixed_iff_written Posix PyRe.sub sample_fs
              "src/lib/supabase/server.ts" server_fixes (Ok tt)
              (fix_file Posix PyRe.sub "src/lib/supabase/server.ts"
                 server_fixes sample_fs).1.2
              (fix_file Posix PyRe.sub "src/lib/supabase/server.ts"
                 server_fixes sample_fs).2)
    as (Hsame & Hfile & _).
  - apply run_eta. vm_compute. reflexivity.
  - destruct (Hfile "try { f() } catch (error) { g() }"
                "try { f() } catch (_error) { g() }") as [Hw _].
    + vm_compute. reflexivity.
    + vm_compute. reflexivity.
    + assert (Hd : "try { f() } catch (_error) { g() }"
                   <> universal_newlines "try { f() } catch (error) { g() }").
      { apply String.eqb_neq. vm_compute. reflexivity. }
      split; [|apply Hw, Hd].
      etransitivity; [exact Hsame|]. apply Hw, Hd.
Defined.

(** C10 on two trees that share the server file. *)
Lemma fix_file_deterministic_witness :
  (fix_file Posix PyRe.sub "src/lib/supabase/server.ts" server_fixes sample_fs).2
  = (fix_file Posix PyRe.sub "src/lib/supabase/server.ts" server_fixes sample_fs').2.
Proof.
  apply (fix_file_deterministic Posix PyRe.sub sample_fs sample_fs'
           "src/lib/supabase/server.ts" server_fixes).
  vm_compute. reflexivity.
Defined.

(** * Further properties *)

(** ** [fix_file]: what it leaves alone, and how calls compose *)

Section FixFileMore.

Context (os : platform)
        (re_sub : string -> string -> string -> result string).

(** A call looks at the node at its path only, and acts on the file
    system by replacing that file or not at all. *)
Lemma fix_file_shape (path : string) (fixes : list (string * string))
    (fs : gmap string node) :
  exists r (o : option string) evs,
    (o = None \/ exists data, fs !! path = Some (File data)) /\
    forall fs1, fs1 !! path = fs !! path ->
      fix_file os re_sub path fixes fs1
      = (r, match o with
            | Some d => <[path := File d]> fs1
            | None => fs1
            end, evs).
Proof.
  destruct (fs !! path) as [[data|]|] eqn:H.
  - destruct (apply_fixes re_sub fixes (universal_newlines data)) as [c|e] eqn:Ha;
      [destruct (String.eqb c (universal_newlines data)) eqn:Hc|].
    + exists (Ok tt), None, [EvRead path]. split; [auto|]. intros fs1 H1.
      rewrite (fix_file_file _ _ _ _ _ _ H1), Ha, Hc. reflexivity.
    + exists (Ok tt), (Some (translate_newlines os c)),
        [EvRead path; EvWrite path (translate_newlines os c);
         EvPrint ("Fixed: " +:+ path)].
      split; [eauto|].
      intros fs1 H1.
      rewrite (fix_file_file _ _ _ _ _ _ H1), Ha, Hc. reflexivity.
    + exists (Raise e), None, [EvRead path]. split; [auto|]. intros fs1 H1.
      rewrite (fix_file_file _ _ _ _ _ _ H1), Ha. reflexivity.
  - exists (Raise (IsADirectoryError path)), None, []. split; [auto|].
    intros fs1 H1. rewrite (fix_file_dir _ _ _ _ _ H1). reflexivity.
  - exists (Ok tt), None, [EvPrint ("File not found: " +:+ path)].
    split; [auto|].
    intros fs1 H1. rewrite (fix_file_absent _ _ _ _ _ H1). reflexivity.
Qed.

(** X1. Whatever the fixes and whatever the outcome, [fix_file] leaves
    every other path as it was and neither creates nor removes a path: the
    file system has the same paths afterwards. *)
Theorem fix_file_touches_one_path (path : string)
    (fixes : list (string * string)) (fs : gmap string node) :
  (forall q, q <> path ->
     (fix_file os re_sub path fixes fs).1.2 !! q = fs !! q) /\
  dom (fix_file os re_sub path fixes fs).1.2 = dom fs.
Proof.
  destruct (fix_file_shape path fixes fs) as (r & o & evs & Ho & Hrun).
  rewrite (Hrun fs eq_refl). simpl. destruct o as [d|]; [|auto].
  destruct Ho as [[=]|[data Hfile]]. split.
  - intros q Hq. apply lookup_insert_ne. congruence.
  - apply dom_insert_lookup_L. eauto.
Qed.










End FixFileMore.

(** ** The scripts: what they touch, and what the linter finds *)

Section ScriptsMore.

Context (os : platform)
        (re_sub : string -> string -> string -> result string)
        (run_process : list string -> gmap string node ->
                       result completed_process * gmap string node).

Lemma mem_app_l (p : string) (l1 l2 : list string) :
  mem p l1 = true -> mem p (l1 ++ l2) = true.
Proof. unfold mem. rewrite existsb_app. intros ->. reflexivity. Qed.

Lemma emits_only_bind {A B} (P : event -> bool) (c : M A) (f : A -> M B) :
  emits_only P c -> (forall a, emits_only P (f a)) -> emits_only P (c ≫= f).
Proof.
  intros Hc Hf fs. unfold mbind, M_bind. specialize (Hc fs).
  destruct (c fs) as [[[a|e] fs1] e1]; simpl in *; [|exact Hc].
  specialize (Hf a fs1). destruct (f a fs1) as [[r fs2] e2]; simpl in *.
  rewrite forallb_app, Hc, Hf. reflexivity.
Qed.

Lemma emits_only_fix_file (rev : revision) (path : string)
    (fixes : list (string * string)) :
  mem path (patched_paths rev) = true ->
  emits_only (allowed rev) (fix_file os re_sub path fixes).
Proof.
  intros Hm fs. pose proof (mem_app_l _ _ (created_paths rev) Hm) as Hw.
  destruct (fs !! path) as [[data|]|] eqn:H.
  - rewrite (fix_file_file _ _ _ _ _ _ H).
    destruct (apply_fixes re_sub fixes (universal_newlines data)) as [c|e];
      [destruct (String.eqb c (universal_newlines data))|]; simpl;
      rewrite ?Hm, ?Hw; reflexivity.
  - rewrite (fix_file_dir _ _ _ _ _ H). reflexivity.
  - rewrite (fix_file_absent _ _ _ _ _ H). reflexivity.
Qed.

Lemma emits_only_write_text (rev : revision) (path text : string) :
  mem path (patched_paths rev ++ created_paths rev) = true ->
  emits_only (allowed rev) (write_text os path text).
Proof.
  intros Hm fs. unfold write_text.
  destruct (fs !! path) as [[d|]|]; simpl; rewrite ?Hm; reflexivity.
Qed.

Lemma emits_only_print (rev : revision) (text : string) :
  emits_only (allowed rev) (print text).
Proof. intros fs. reflexivity. Qed.

Lemma emits_only_guarded_remove (rev : revision) (path msg : string) :
  mem path (removed_paths rev) = true ->
  emits_only (allowed rev)
    (found ← path_exists path;
     if (found : bool) then remove path;; print msg else mret tt).
Proof.
  intros Hm fs. unfold mbind, M_bind, path_exists, remove, print, mret, M_ret.
  destruct (fs !! path) as [[d|]|] eqn:H.
  - rewrite bool_decide_eq_true_2 by eauto. simpl. rewrite H. simpl.
    rewrite Hm. reflexivity.
  - rewrite bool_decide_eq_true_2 by eauto. simpl. rewrite H. reflexivity.
  - rewrite bool_decide_eq_false_2 by (intros [? ?]; discriminate). reflexivity.
Qed.

Lemma emits_only_run_lint (rev : revision) :
  emits_only (allowed rev) (run_lint run_process).
Proof.
  intros fs. rewrite run_lint_run.
  destruct (run_process ["npm"; "run"; "lint"] fs) as [[p|e] fs1]; reflexivity.
Qed.

Ltac allowed_steps :=
  lazymatch goal with
  | |- emits_only _ (run_lint _) => apply emits_only_run_lint
  | |- _ =>
      apply emits_only_bind;
      [ first [ apply emits_only_fix_file; reflexivity
              | apply emits_only_write_text; reflexivity
              | apply emits_only_print
              | apply emits_only_guarded_remove; reflexivity ]
      | intros _; allowed_steps ]
  end.

(** X7. Whatever the tree, the engine and the linter, a revision reads
    only the files of its table, writes only those and its own
    configuration file, and removes nothing but, in the final revision,
    the two legacy configuration files. *)
Theorem script_events_allowed (rev : revision) (fs : gmap string node) :
  forallb (allowed rev) (script os re_sub run_process rev fs).2 = true.
Proof.
  revert fs. change (emits_only (allowed rev) (script os re_sub run_process rev)).
  destruct rev; cbv [script].
  - unfold fix_eslint. allowed_steps.
  - unfold fix_all_eslint. allowed_steps.
  - unfold fix_final_eslint. allowed_steps.
Qed.

Lemma mem_false_ne (q path : string) (paths : list string) :
  mem path paths = true -> mem q paths = false -> q <> path.
Proof. intros Hp Hq ->. congruence. Qed.

Lemma keeps_fix_file (paths : list string) (path : string)
    (fixes : list (string * string)) :
  mem path paths = true -> keeps paths (fix_file os re_sub path fixes).
Proof.
  intros Hm fs a fs' evs Hrun q Hq.
  rewrite <- (fix_file_frame os re_sub path fixes fs q (mem_false_ne _ _ _ Hm Hq)).
  rewrite Hrun. reflexivity.
Qed.

Lemma keeps_write_text (paths : list string) (path text : string) :
  mem path paths = true -> keeps paths (write_text os path text).
Proof.
  intros Hm fs [] fs' evs Hrun q Hq.
  apply write_text_ok_inv in Hrun as [_ Hframe].
  apply Hframe. eapply mem_false_ne; eauto.
Qed.

Lemma keeps_print (paths : list string) (text : string) :
  keeps paths (print text).
Proof. intros fs a fs' evs [= _ <- _] q _. reflexivity. Qed.

Lemma keeps_guarded_remove (paths : list string) (path msg : string) :
  mem path paths = true ->
  keeps paths (found ← path_exists path;
               if (found : bool) then remove path;; print msg else mret tt).
Proof.
  intros Hm fs [] fs' evs Hrun q Hq.
  apply guarded_remove_ok_inv in Hrun as [_ Hframe].
  apply Hframe. eapply mem_false_ne; eauto.
Qed.

Lemma starts_lint_run_lint (Q : gmap string node -> gmap string node -> Prop) :
  (forall fs, Q fs fs) -> starts_lint_on run_process Q (run_lint run_process).
Proof.
  intros HQ fs fs' evs. rewrite run_lint_run.
  destruct (run_process ["npm"; "run"; "lint"] fs) as [[p|e] fs1] eqn:Hl;
    [|discriminate].
  intros [= <- _]. exists fs, p. auto.
Qed.

Lemma starts_lint_keeps (paths : list string) (c : M unit) (f : unit -> M unit) :
  keeps paths c ->
  starts_lint_on run_process (same_outside paths) (f tt) ->
  starts_lint_on run_process (same_outside paths) (c ≫= f).
Proof.
  intros Hc Hf fs fs' evs Hrun.
  apply bind_ok_inv in Hrun as ([] & fs1 & e1 & e2 & H1 & H2 & _).
  destruct (Hf _ _ _ H2) as (fs_l & p & Hl & Hsame).
  exists fs_l, p. split; [exact Hl|]. intros q Hq.
  rewrite (Hsame q Hq). apply (Hc _ _ _ _ H1 q Hq).
Qed.

Ltac keeps_steps :=
  lazymatch goal with
  | |- starts_lint_on _ _ (run_lint _) =>
      apply starts_lint_run_lint; intros ? ? ?; reflexivity
  | |- _ =>
      apply starts_lint_keeps;
      [ first [ apply keeps_fix_file; reflexivity
              | apply keeps_write_text; reflexivity
              | apply keeps_print
              | apply keeps_guarded_remove; reflexivity ]
      | keeps_steps ]
  end.

(** X8. When a revision returns, the linter was started on a tree in
    which every file outside the revision's paths is as it was at the
    start, and the script ends with the tree the linter left. *)
Theorem linter_finds_rest (rev : revision) (fs fs' : gmap string node)
    (evs : list event) :
  script os re_sub run_process rev fs = (Ok tt, fs', evs) ->
  exists fs_l p,
    run_process ["npm"; "run"; "lint"] fs_l = (Ok p, fs') /\
    forall q, mem q (touched_paths rev) = false -> fs_l !! q = fs !! q.
Proof.
  revert fs fs' evs.
  change (starts_lint_on run_process (same_outside (touched_paths rev))
            (script os re_sub run_process rev)).
  destruct rev; cbv [script].
  - unfold fix_eslint. keeps_steps.
  - unfold fix_all_eslint. keeps_steps.
  - unfold fix_final_eslint. keeps_steps.
Qed.

(** A step before a computation whose linter finds [P], whatever the
    tree it starts on. *)
Lemma starts_lint_skip (P : gmap string node -> Prop) (c : M unit)
    (f : unit -> M unit) :
  starts_lint_on run_process (fun _ => P) (f tt) ->
  starts_lint_on run_process (fun _ => P) (c ≫= f).
Proof.
  intros Hf fs fs' evs Hrun.
  apply bind_ok_inv in Hrun as ([] & fs1 & e1 & e2 & H1 & H2 & _).
  apply (Hf _ _ _ H2).
Qed.

(** A guarded removal that returns leaves no file at the path. *)
Lemma guarded_remove_gone (path msg : string) (fs fs' : gmap string node)
    (evs : list event) :
  (found ← path_exists path;
   if (found : bool) then remove path;; print msg else mret tt) fs
    = (Ok tt, fs', evs) ->
  fs' !! path = None.
Proof.
  unfold mbind, M_bind, path_exists, remove, print, mret, M_ret.
  destruct (fs !! path) as [[d|]|] eqn:H.
  - rewrite bool_decide_eq_true_2 by eauto. simpl. rewrite H.
    intros [= <- _]. apply lookup_delete_eq.
  - rewrite bool_decide_eq_true_2 by eauto. simpl. rewrite H. discriminate.
  - rewrite bool_decide_eq_false_2 by (intros [? ?]; discriminate).
    intros [= <- _]. exact H.
Qed.

(** X9. When the final revision returns, the linter was started on a
    tree that holds the new configuration in eslint.config.mjs and has
    neither .eslintrc.json nor .eslintignore, whatever was there before. *)
Theorem final_linter_finds_config (fs fs' : gmap string node)
    (evs : list event) :
  fix_final_eslint os re_sub run_process fs = (Ok tt, fs', evs) ->
  exists fs_l p,
    run_process ["npm"; "run"; "lint"] fs_l = (Ok p, fs') /\
    fs_l !! "eslint.config.mjs"
      = Some (File (translate_newlines os eslint_config)) /\
    text_at fs_l "eslint.config.mjs" = Some eslint_config /\
    fs_l !! ".eslintrc.json" = None /\
    fs_l !! ".eslintignore" = None.
Proof.
  revert fs fs' evs.
  change (starts_lint_on run_process (fun _ fs_l =>
            fs_l !! "eslint.config.mjs"
              = Some (File (translate_newlines os eslint_config)) /\
            text_at fs_l "eslint.config.mjs" = Some eslint_config /\
            fs_l !! ".eslintrc.json" = None /\
            fs_l !! ".eslintignore" = None)
            (fix_final_eslint os re_sub run_process)).
  unfold fix_final_eslint. do 2 apply starts_lint_skip.
  intros fs fs' evs H.
  apply bind_ok_inv in H as ([] & fs3 & e3 & t3 & H3 & H & _).
  apply bind_ok_inv in H as ([] & fs4 & e4 & t4 & H4 & H & _).
  apply bind_ok_inv in H as ([] & fs5 & e5 & t5 & H5 & H & _).
  apply bind_ok_inv in H as ([] & fs6 & e6 & t6 & H6 & H & _).
  rewrite run_lint_run in H.
  destruct (run_process ["npm"; "run"; "lint"] fs6) as [[p|e] fs7] eqn:Hl;
    [|discriminate]. injection H as <- _.
  assert (Hcfg : fs3 !! "eslint.config.mjs"
                 = Some (File (translate_newlines os eslint_config))).
  { unfold write_text in H3.
    destruct (fs !! "eslint.config.mjs") as [[d|]|]; try discriminate;
      injection H3 as <- _; apply lookup_insert_eq. }
  injection H4 as <- _.
  pose proof (guarded_remove_gone _ _ _ _ _ H5) as G5.
  pose proof (guarded_remove_gone _ _ _ _ _ H6) as G6.
  apply guarded_remove_ok_inv in H5 as [_ F5].
  apply guarded_remove_ok_inv in H6 as [_ F6].
  exists fs6, p. split; [exact Hl|].
  assert (Hcfg6 : fs6 !! "eslint.config.mjs"
                  = Some (File (translate_newlines os eslint_config))).
  { rewrite F6, F5 by discriminate. exact Hcfg. }
  split; [exact Hcfg6|]. split.
  - unfold text_at. rewrite Hcfg6.
    rewrite (universal_translate os eslint_config eq_refl). reflexivity.
  - split; [|exact G6]. rewrite F6 by discriminate. exact G5.
Qed.

(** X10. When the second revision returns, the linter was started on a
    tree whose .eslintignore holds the two ignore entries. *)
Theorem all_linter_finds_ignore (fs fs' : gmap string node)
    (evs : list event) :
  fix_all_eslint os re_sub run_process fs = (Ok tt, fs', evs) ->
  exists fs_l p,
    run_process ["npm"; "run"; "lint"] fs_l = (Ok p, fs') /\
    fs_l !! ".eslintignore" = Some (File (translate_newlines os eslintignore)) /\
    text_at fs_l ".eslintignore" = Some eslintignore.
Proof.
  revert fs fs' evs.
  change (starts_lint_on run_process (fun _ fs_l =>
            fs_l !! ".eslintignore"
              = Some (File (translate_newlines os eslintignore)) /\
            text_at fs_l ".eslintignore" = Some eslintignore)
            (fix_all_eslint os re_sub run_process)).
  unfold fix_all_eslint. do 14 apply starts_lint_skip.
  intros fs fs' evs H.
  apply bind_ok_inv in H as ([] & fs3 & e3 & t3 & H3 & H & _).
  apply bind_ok_inv in H as ([] & fs4 & e4 & t4 & H4 & H & _).
  rewrite run_lint_run in H.
  destruct (run_process ["npm"; "run"; "lint"] fs4) as [[p|e] fs7] eqn:Hl;
    [|discriminate]. injection H as <- _.
  injection H4 as <- _.
  assert (Hign : fs3 !! ".eslintignore"
                 = Some (File (translate_newlines os eslintignore))).
  { unfold write_text in H3.
    destruct (fs !! ".eslintignore") as [[d|]|]; try discriminate;
      injection H3 as <- _; apply lookup_insert_eq. }
  exists fs3, p. split; [exact Hl|]. split; [exact Hign|].
  unfold text_at. rewrite Hign.
  rewrite (universal_translate os eslintignore eq_refl). reflexivity.
Qed.

Lemma fixed_log_app (paths : list string) (l1 l2 : list event) :
  fixed_log paths l1 -> fixed_log paths l2 -> fixed_log paths (l1 ++ l2).
Proof.
  intros H1 H2 p Hp. pose proof (H1 p Hp) as E1. pose proof (H2 p Hp) as E2.
  unfold printed, wrote in *. rewrite !existsb_app, E1, E2. reflexivity.
Qed.

Lemma fixed_log_fix_file (paths : list string) (path : string)
    (fixes : list (string * string)) (fs : gmap string node) :
  fixed_log paths (fix_file os re_sub path fixes fs).2.
Proof.
  intros p _. destruct (fs !! path) as [[data|]|] eqn:H.
  - rewrite (fix_file_file _ _ _ _ _ _ H).
    destruct (apply_fixes re_sub fixes (universal_newlines data)) as [c|e];
      [destruct (String.eqb c (universal_newlines data))|]; reflexivity.
  - rewrite (fix_file_dir _ _ _ _ _ H). reflexivity.
  - rewrite (fix_file_absent _ _ _ _ _ H). reflexivity.
Qed.

Lemma fixed_log_write_text (paths : list string) (path text : string)
    (fs : gmap string node) :
  mem path paths = false ->
  fixed_log paths (write_text os path text fs).2.
Proof.
  intros Hm p Hp. unfold write_text.
  destruct (fs !! path) as [[d|]|]; try reflexivity; unfold printed, wrote; simpl;
    rewrite orb_false_r; symmetry; apply String.eqb_neq; intros ->; congruence.
Qed.

(** A line that is no "Fixed" line. *)
Lemma fixed_log_print (paths : list string) (text : string)
    (fs : gmap string node) :
  (forall p, String.eqb text ("Fixed: " +:+ p) = false) ->
  fixed_log paths (print text fs).2.
Proof.
  intros Ht p _. unfold printed, wrote. simpl. rewrite (Ht p). reflexivity.
Qed.

Lemma fixed_log_guarded_remove (paths : list string) (path msg : string)
    (fs : gmap string node) :
  (forall p, String.eqb msg ("Fixed: " +:+ p) = false) ->
  fixed_log paths
    ((found ← path_exists path;
      if (found : bool) then remove path;; print msg else mret tt) fs).2.
Proof.
  intros Ht p _. unfold mbind, M_bind, path_exists, remove, print, mret, M_ret.
  destruct (fs !! path) as [[d|]|] eqn:H.
  - rewrite bool_decide_eq_true_2 by eauto. simpl. rewrite H.
    unfold printed, wrote. simpl. rewrite (Ht p). reflexivity.
  - rewrite bool_decide_eq_true_2 by eauto. simpl. rewrite H. reflexivity.
  - rewrite bool_decide_eq_false_2 by (intros [? ?]; discriminate). reflexivity.
Qed.

Lemma logs_fixes_run_lint (paths : list string) (fs : gmap string node) :
  logs_fixes paths (run_lint run_process fs).
Proof.
  rewrite run_lint_run. exists [].
  destruct (run_process ["npm"; "run"; "lint"] fs) as [[p|e] fs1]; eexists;
    (split; [reflexivity|]); (split; [|intros ? ?; reflexivity]).
  - right. eauto.
  - left. eauto.
Qed.

Lemma logs_fixes_bind (paths : list string) (c : M unit) (f : unit -> M unit) :
  (forall fs, fixed_log paths (c fs).2) ->
  (forall fs, logs_fixes paths (f tt fs)) ->
  forall fs, logs_fixes paths ((c ≫= f) fs).
Proof.
  intros Hc Hf fs. unfold mbind, M_bind. specialize (Hc fs).
  destruct (c fs) as [[[[]|e] fs1] e1]; simpl in Hc.
  - specialize (Hf fs1). destruct (f tt fs1) as [[r fs2] e2].
    destruct Hf as (pre & tail & Heq & Hs & Hl). simpl in *. subst e2.
    exists (e1 ++ pre), tail. split; [apply app_assoc|]. split; [exact Hs|].
    apply fixed_log_app; assumption.
  - exists e1, []. split; [symmetry; apply app_nil_r|]. split; [|exact Hc].
    left. eauto.
Qed.

Ltac logs_steps :=
  lazymatch goal with
  | |- forall fs, logs_fixes _ (run_lint _ fs) => apply logs_fixes_run_lint
  | |- _ =>
      apply logs_fixes_bind;
      [ intros ?;
        first [ apply fixed_log_fix_file
              | apply fixed_log_write_text; reflexivity
              | apply fixed_log_print; intros ?; reflexivity
              | apply fixed_log_guarded_remove; intros ?; reflexivity ]
      | logs_steps ]
  end.

(** X11. The console tells which files were changed: the trace of a
    revision is its patch events followed by the linter's part, and among
    the patch events each file of the table has its "Fixed" line exactly if
    it was written.  The linter's part is its banner, call and two prints
    when the script returns, and at most the banner when it raises. *)
Theorem script_fixed_log (rev : revision) (fs : gmap string node) :
  exists pre tail,
    (script os re_sub run_process rev fs).2 = pre ++ tail /\
    lint_suffix (script os re_sub run_process rev fs).1.1 tail /\
    forall p, mem p (patched_paths rev) = true ->
      printed ("Fixed: " +:+ p) pre = wrote p pre.
Proof.
  revert fs.
  change (forall fs, logs_fixes (patched_paths rev)
                       (script os re_sub run_process rev fs)).
  destruct rev; cbv [script].
  - unfold fix_eslint. logs_steps.
  - unfold fix_all_eslint. logs_steps.
  - unfold fix_final_eslint. logs_steps.
Qed.

End ScriptsMore.

(** ** Sample runs for the further properties *)






(** X8 on a run of the final revision: the signup page is not in its
    table. *)
Lemma linter_finds_rest_witness :
  exists fs_l p,
    sample_lint ["npm"; "run"; "lint"] fs_l
      = (Ok p, (fix_final_eslint Posix PyRe.sub sample_lint sample_fs).1.2) /\
    fs_l !! "src/app/signup/page.tsx"
      = Some (File "const { error } = await signUp()").
Proof.
  destruct (linter_finds_rest Posix PyRe.sub sample_lint FixFinalEslint
              sample_fs
              (fix_final_eslint Posix PyRe.sub sample_lint sample_fs).1.2
              (fix_final_eslint Posix PyRe.sub sample_lint sample_fs).2)
    as (fs_l & p & Hl & Hrest).
  - apply run_eta. vm_compute. reflexivity.
  - exists fs_l, p. split; [exact Hl|].
    rewrite (Hrest "src/app/signup/page.tsx" eq_refl). reflexivity.
Defined.

(** X9 on a tree that has the legacy configuration. *)
Lemma final_linter_finds_config_witness :
  exists fs_l p,
    sample_lint ["npm"; "run"; "lint"] fs_l
      = (Ok p, (fix_final_eslint Posix PyRe.sub sample_lint sample_fs).1.2) /\
    text_at fs_l "eslint.config.mjs" = Some eslint_config /\
    fs_l !! ".eslintrc.json" = None.
Proof.
  destruct (final_linter_finds_config Posix PyRe.sub sample_lint sample_fs
              (fix_final_eslint Posix PyRe.sub sample_lint sample_fs).1.2
              (fix_final_eslint Posix PyRe.sub sample_lint sample_fs).2)
    as (fs_l & p & Hl & _ & Ht & Hrc & _).
  - apply run_eta. vm_compute. reflexivity.
  - exists fs_l, p. auto.
Defined.

(** X10 with Windows line endings. *)
Lemma all_linter_finds_ignore_witness :
  exists fs_l p,
    sample_lint ["npm"; "run"; "lint"] fs_l
      = (Ok p, (fix_all_eslint Windows PyRe.sub sample_lint sample_fs).1.2) /\
    text_at fs_l ".eslintignore" = Some eslintignore.
Proof.
  destruct (all_linter_finds_ignore Windows PyRe.sub sample_lint sample_fs
              (fix_all_eslint Windows PyRe.sub sample_lint sample_fs).1.2
              (fix_all_eslint Windows PyRe.sub sample_lint sample_fs).2)
    as (fs_l & p & Hl & _ & Ht).
  - apply run_eta. vm_compute. reflexivity.
  - exists fs_l, p. auto.
Defined.



